(** * radarlfo: the offer-resolution core of [web.py]

    A shallow embedding of the functions of [src/web.py] that decide who
    holds the purchase offer of an ASIN: the identifier validator
    ([is_valid_asin] and the token pipeline of [index]), the block
    detector ([detect_soft_block]), the fetch cycle ([safe_get]), the
    recovery loop ([scrape_one_asin]), the merchant extractor
    ([extract_sold_shipped_from_dp]) and the coordinator
    ([get_offer_info_scrape_parallel]).

    Python [str] values are lists of Unicode code points.  The part of
    the Unicode character database that lies outside ASCII is a
    parameter ([UnicodeDB]); on ASCII text every function computes. *)

From stdpp Require Import gmap.
From Stdlib Require Import String Ascii ZArith NArith QArith List Bool Lia Permutation.
From Stdlib Require Import DecimalString DecimalPos DecimalZ.
Import ListNotations.

Local Open Scope N_scope.

(** ** Python strings *)

Module Py.

Definition char := N.
Definition str := list char.

(** A literal of the source, for ASCII text. *)
Definition lit (s : string) : str := List.map N_of_ascii (list_ascii_of_string s).

Definition is_ascii (s : str) : bool := forallb (fun c => c <? 128) s.

(** [Py_UNICODE_ISSPACE] on ASCII: TAB..CR, FS..US and the space. *)
Definition ascii_isspace (c : char) : bool :=
  ((9 <=? c) && (c <=? 13)) || ((28 <=? c) && (c <=? 32)).

Definition ascii_isalnum (c : char) : bool :=
  ((48 <=? c) && (c <=? 57)) || ((65 <=? c) && (c <=? 90)) || ((97 <=? c) && (c <=? 122)).

Definition ascii_lower (c : char) : char :=
  if (65 <=? c) && (c <=? 90) then c + 32 else c.

Definition ascii_upper (c : char) : char :=
  if (97 <=? c) && (c <=? 122) then c - 32 else c.

(** What [str.isspace], [str.isalnum], [str.lower] and [str.upper] do
    beyond ASCII comes from the Unicode character database, which is not
    part of the repository.  The case mappings are functions of the whole
    string: they may change its length and look at the context. *)
Record UnicodeDB := {
  u_isspace : char -> bool;
  u_isalnum : char -> bool;
  u_lower : str -> str;
  u_upper : str -> str
}.

Section Str.
Context (udb : UnicodeDB).

Definition isspace (c : char) : bool :=
  if c <? 128 then ascii_isspace c else u_isspace udb c.

Definition isalnum_char (c : char) : bool :=
  if c <? 128 then ascii_isalnum c else u_isalnum udb c.

(** [s.isalnum()]: at least one character, and all of them alphanumeric. *)
Definition isalnum (s : str) : bool :=
  match s with
  | [] => false
  | _ => forallb isalnum_char s
  end.

(** [s.lower()] and [s.upper()] *)
Definition lower (s : str) : str :=
  if is_ascii s then List.map ascii_lower s else u_lower udb s.

Definition upper (s : str) : str :=
  if is_ascii s then List.map ascii_upper s else u_upper udb s.

(** [s.strip()] *)
Fixpoint lstrip (s : str) : str :=
  match s with
  | [] => []
  | c :: t => if isspace c then lstrip t else s
  end.

Definition rstrip (s : str) : str := rev (lstrip (rev s)).

Definition strip (s : str) : str := rstrip (lstrip s).

(** [s.split()]: the maximal runs of non-whitespace characters.  [cur]
    holds the run being read, last character first. *)
Definition flush (cur : str) (k : list str) : list str :=
  match cur with
  | [] => k
  | _ => rev cur :: k
  end.

Fixpoint split_from (cur : str) (s : str) : list str :=
  match s with
  | [] => flush cur []
  | c :: t =>
      if isspace c then flush cur (split_from [] t)
      else split_from (c :: cur) t
  end.

Definition split (s : str) : list str := split_from [] s.

(** [sep.join(l)] *)
Fixpoint join (sep : str) (l : list str) : str :=
  match l with
  | [] => []
  | [x] => x
  | x :: t => x ++ sep ++ join sep t
  end.

(** [needle in hay] *)
Fixpoint startswith (p s : str) : bool :=
  match p, s with
  | [], _ => true
  | _ :: _, [] => false
  | a :: p', b :: s' => (a =? b) && startswith p' s'
  end.

Fixpoint contains (needle hay : str) : bool :=
  startswith needle hay ||
  match hay with
  | [] => false
  | _ :: t => contains needle t
  end.

(** [a == b] *)
Fixpoint eqb (a b : str) : bool :=
  match a, b with
  | [], [] => true
  | x :: a', y :: b' => (x =? y) && eqb a' b'
  | _, _ => false
  end.

(** [re.sub(r"\s+", " ", s)]: every maximal run of whitespace becomes one
    space.  [in_run] says that the previous character was whitespace. *)
Fixpoint re_sub_ws (in_run : bool) (s : str) : str :=
  match s with
  | [] => []
  | c :: t =>
      if isspace c then
        if in_run then re_sub_ws true t else 32 :: re_sub_ws true t
      else c :: re_sub_ws false t
  end.

(** [re.split(r"\s+", s)]: the pieces between the maximal runs of
    whitespace, the empty pieces at both ends included. *)
Fixpoint re_split_ws (cur : str) (in_run : bool) (s : str) : list str :=
  match s with
  | [] => [rev cur]
  | c :: t =>
      if isspace c then
        if in_run then re_split_ws cur true t
        else rev cur :: re_split_ws [] true t
      else re_split_ws (c :: cur) false t
  end.

(** [s.replace(",", " ")] *)
Definition replace_comma (s : str) : str :=
  List.map (fun c => if c =? 44 then 32 else c) s.

End Str.

(** The Latin-1 rows of the database (code points 128..255): what
    Python answers on texts of code points below 256, on which the
    samples below stay.  [upper] leaves that range: the sharp s (U+00DF)
    becomes [SS], the micro sign U+039C and y-diaeresis U+0178. *)
Definition latin1_isspace (c : char) : bool := (c =? 133) || (c =? 160).

Definition latin1_isalnum (c : char) : bool :=
  (c =? 170) || (c =? 178) || (c =? 179) || (c =? 181) || (c =? 185) || (c =? 186) ||
  ((188 <=? c) && (c <=? 190)) ||
  ((192 <=? c) && (c <=? 214)) || ((216 <=? c) && (c <=? 246)) ||
  ((248 <=? c) && (c <=? 255)).

Definition latin1_lower_char (c : char) : str :=
  if ((192 <=? c) && (c <=? 214)) || ((216 <=? c) && (c <=? 222)) then [c + 32]
  else [ascii_lower c].

Definition latin1_upper_char (c : char) : str :=
  if c =? 223 then [83; 83]
  else if c =? 181 then [924]
  else if c =? 255 then [376]
  else if ((224 <=? c) && (c <=? 246)) || ((248 <=? c) && (c <=? 254)) then [c - 32]
  else [ascii_upper c].

Definition latin1 : UnicodeDB := {|
  u_isspace := latin1_isspace;
  u_isalnum := latin1_isalnum;
  u_lower := fun s => List.concat (List.map latin1_lower_char s);
  u_upper := fun s => List.concat (List.map latin1_upper_char s)
|}.

End Py.

(** ** The program *)

Module Web.
Import Py.

Local Open Scope nat_scope.

(** *** Constants (web.py, lines 21-51) *)

Definition AMAZON_DOMAIN : str := lit "https://www.amazon.com.br".

(** The third hint is spelt with a c-cedilla (U+00E7). *)
Definition AMAZON_RETAIL_HINTS : list str :=
  [ lit "amazon";
    lit "amazon.com.br";
    lit "amazon servi" ++ [231%N] ++ lit "os de varejo";
    lit "amazon servicos de varejo" ].

Definition MAX_WORKERS : nat := 6.
Definition REQUEST_TIMEOUT : Q := 10%Q.
Definition SAFEGET_RETRIES_PER_CYCLE : nat := 2.
Definition MAX_BLOCKED_CYCLES : nat := 3.
Definition BLOCKED_BACKOFF_BASE : Q := (18 # 10)%Q.
Definition REPROCESSAR_LABEL : str := lit "Reprocessar".

(** The literals that the functions compare against. *)
Definition SEM_OFERTA : str := lit "Sem Oferta".
Definition AMAZON : str := lit "Amazon".
Definition AMAZON_FO : str := lit "Amazon FO".
Definition LFO : str := lit "LFO".
Definition REPROCESSAR : str := lit "REPROCESSAR".

(** The CAPTCHA prompt, [digite os caracteres que voce ve] with its two
    circumflexed letters (U+00EA). *)
Definition CAPTCHA_PROMPT : str :=
  lit "digite os caracteres que voc" ++ [234%N] ++ lit " v" ++ [234%N].
Definition AUTOMATED_ACCESS : str := lit "to discuss automated access".
Definition SORRY : str := lit "sorry".
Definition ROBOT : str := lit "robot".

(** *** The outside world

    One worker thread sees the network as the sequence of outcomes of its
    requests: the [n]-th call of [session.get] either raises or returns.
    The world also holds the thread-local session of [get_session] and a
    log of what the thread did, newest event first. *)

Record Response := { status_code : Z; text : str }.

Inductive Outcome :=
| Raises
| Returns (resp : option Response).

Inductive Event :=
| EvNewSession (id : nat)
| EvGet (session : nat) (url : str) (timeout : Q)
| EvSleep (base jitter : Q).

Record World := {
  net : nat -> Outcome;
  issued : nat;
  session : option nat;
  next_session : nat;
  log : list Event
}.

(** Computations that read and change the world and may raise. *)
Inductive Res (A : Type) :=
| Ok (a : A)
| Raised.
Arguments Ok {A} a.
Arguments Raised {A}.

Definition M (A : Type) : Type := World -> Res A * World.

#[global] Instance M_ret : MRet M := fun A a w => (Ok a, w).
#[global] Instance M_bind : MBind M := fun A B f m w =>
  match m w with
  | (Ok a, w') => f a w'
  | (Raised, w') => (Raised, w')
  end.

(** [try: body except Exception: handler] *)
Definition try_except {A} (body handler : M A) : M A := fun w =>
  match body w with
  | (Ok a, w') => (Ok a, w')
  | (Raised, w') => handler w'
  end.

(** [session.get(url, timeout=timeout)] *)
Definition session_get (s : nat) (url : str) (timeout : Q) : M (option Response) := fun w =>
  let w' := {| net := net w; issued := S (issued w); session := session w;
               next_session := next_session w;
               log := EvGet s url timeout :: log w |} in
  match net w (issued w) with
  | Raises => (Raised, w')
  | Returns resp => (Ok resp, w')
  end.

(** [time.sleep(base + random.random() * jitter)] *)
Definition sleep (base jitter : Q) : M unit := fun w =>
  (Ok tt, {| net := net w; issued := issued w; session := session w;
             next_session := next_session w;
             log := EvSleep base jitter :: log w |}).

(** [get_session] (lines 97-109): one session per thread, made anew when
    [force_new] is set or when the thread has none. *)
Definition get_session (force_new : bool) : M nat := fun w =>
  match (if force_new then None else session w) with
  | Some s => (Ok s, w)
  | None =>
      let s := next_session w in
      (Ok s, {| net := net w; issued := issued w; session := Some s;
                next_session := S s; log := EvNewSession s :: log w |})
  end.

Section Program.
Context (udb : UnicodeDB).

Abbreviation lower := (Py.lower udb).
Abbreviation upper := (Py.upper udb).
Abbreviation strip := (Py.strip udb).
Abbreviation split := (Py.split udb).

Definition is_empty (s : str) : bool :=
  match s with [] => true | _ => false end.

(** [is_valid_asin] (lines 65-67) *)
Definition is_valid_asin (a : str) : bool :=
  let a := strip a in
  (length a =? 10) && isalnum udb a.

(** [normalize_spaces] (lines 70-71) *)
Definition normalize_spaces (s : str) : str :=
  strip (join [32%N] (split s)).

(** [is_amazon_name] (lines 74-78) *)
Definition is_amazon_name (name : str) : bool :=
  let n := strip (lower name) in
  if is_empty n then false
  else existsb (fun h => contains h n) AMAZON_RETAIL_HINTS.

(** [detect_soft_block] (lines 81-94) *)
Definition detect_soft_block (resp : option Response) (html : str) : bool :=
  match resp with
  | None => true
  | Some r =>
      if (status_code r =? 429)%Z || (status_code r =? 503)%Z then true
      else
        let t := lower html in
        if contains CAPTCHA_PROMPT t then true
        else if contains AUTOMATED_ACCESS t then true
        else if contains SORRY t && contains ROBOT t then true
        else false
  end.

(** [safe_get] (lines 112-136).  The body of the [try] either returns
    from the function ([inl]) or falls through with the new [last]
    ([inr]); an exception leaves [last = (None, "")]. *)
Fixpoint safe_get_loop (s : nat) (url : str) (timeout : Q) (attempts : list nat)
    (last : option Response * str) : M (option Response * str) :=
  match attempts with
  | [] => mret last
  | attempt :: rest =>
      r ← try_except
            (resp ← session_get s url timeout;
             let html := match resp with Some r => text r | None => [] end in
             if negb (detect_soft_block resp html) then mret (inl (resp, html))
             else mret (inr (resp, html)))
            (mret (inr (None, [])));
      match r with
      | inl result => mret result
      | inr last' =>
          _ ← sleep ((7 # 10) + inject_Z (Z.of_nat attempt) * (11 # 10))%Q (6 # 10)%Q;
          safe_get_loop s url timeout rest last'
      end
  end.

(** [max_retries] is a number of retries ([SAFEGET_RETRIES_PER_CYCLE] at
    the one call): the loop runs over [range(max_retries + 1)]. *)
Definition safe_get (s : nat) (url : str) (timeout : Q) (max_retries : nat)
    : M (option Response * str) :=
  safe_get_loop s url timeout (seq 0 (max_retries + 1)) (None, []).

(** *** The merchant extractor (lines 139-221)

    The extractor reads the parsed page through the selectors it runs.  A
    [Soup] holds what each of them finds: [None] where [select_one] finds
    no element, and otherwise the element's [get_text(" ", strip=True)].
    A [bs4] tag is always truthy, so [if not root], [if a], [if sp] and
    [if prime_hint] test for [None]. *)

(** The element [text_el] as [pick_merchant_text] queries it. *)
Record Element := {
  sel_link : option str;   (* the first seller link under the element *)
  sel_span : option str;   (* span.offer-display-feature-text-message *)
  el_text : str            (* the text of the element itself *)
}.

Record Soup := {
  label_el : option str;     (* the merchant-info label block *)
  text_el : option Element;  (* the merchant-info text block *)
  seller_links : list str;   (* the fallback seller links, in document order *)
  page_text : str;           (* soup.get_text(" ", strip=True) *)
  prime_hint : bool          (* is there a Prime badge element? *)
}.

(** [clean] (lines 148-153) *)
Definition clean (s : str) : str :=
  let s := normalize_spaces s in
  if is_empty s then SEM_OFERTA
  else
    let s := strip (re_sub_ws udb false s) in
    if is_empty s then SEM_OFERTA else firstn 80 s.

(** [pick_merchant_text] (lines 155-169) *)
Definition pick_merchant_text (root : option Element) : str :=
  match root with
  | None => SEM_OFERTA
  | Some el =>
      match sel_link el with
      | Some a => clean a
      | None =>
          match sel_span el with
          | Some sp => clean sp
          | None => clean (el_text el)
          end
      end
  end.

(** The loop over [seller_links] (lines 199-205): it returns from the
    function on an operator name, breaks on the first other candidate, and
    otherwise runs to the end. *)
Inductive Scan :=
| ScanAmazon
| ScanName (name : str)
| ScanNone.

Fixpoint scan_seller_links (links : list str) : Scan :=
  match links with
  | [] => ScanNone
  | link :: rest =>
      let name := clean link in
      if negb (eqb name SEM_OFERTA) && (length (split name) <=? 6) then
        if is_amazon_name name then ScanAmazon else ScanName name
      else scan_seller_links rest
  end.

(** Lines 207-216: the shipper of a seller whose shipper is still open. *)
Definition resolve_shipper (soup : Soup) (vendido enviado : str) : str :=
  if negb (eqb vendido SEM_OFERTA) && eqb enviado SEM_OFERTA then
    let page := lower (page_text soup) in
    if contains (lit "enviado por amazon") page
       || contains (lit "ships from amazon") page
    then AMAZON
    else if prime_hint soup then AMAZON else vendido
  else enviado.

(** Lines 218-221 *)
Definition finish (vendido enviado : str) : str * str :=
  if eqb vendido SEM_OFERTA && eqb enviado SEM_OFERTA then (SEM_OFERTA, SEM_OFERTA)
  else (vendido, enviado).

(** Lines 184-193: what the merchant-info block decides.  [inl] is a
    [return] from the function, [inr] the values of [vendido] and
    [enviado] with which it goes on. *)
Definition merchant_block (merchant_txt label_txt : str) : (str * str) + (str * str) :=
  if negb (eqb merchant_txt SEM_OFERTA) then
    if is_amazon_name merchant_txt then inl (AMAZON, AMAZON)
    else
      let vendido := merchant_txt in
      if contains (lit "enviado / vendido") label_txt
         || contains (lit "shipped from and sold by") label_txt
      then inr (vendido, vendido)
      else inr (vendido, SEM_OFERTA)
  else inr (SEM_OFERTA, SEM_OFERTA).

(** Lines 195-205 *)
Definition fallback_seller (soup : Soup) (vendido : str) : (str * str) + str :=
  if eqb vendido SEM_OFERTA then
    match scan_seller_links (seller_links soup) with
    | ScanAmazon => inl (AMAZON, AMAZON)
    | ScanName name => inr name
    | ScanNone => inr vendido
    end
  else inr vendido.

Definition extract_sold_shipped_from_dp (soup : Soup) : str * str :=
  let label_txt :=
    match label_el soup with
    | Some t => lower (clean t)
    | None => []
    end in
  let merchant_txt := pick_merchant_text (text_el soup) in
  match merchant_block merchant_txt label_txt with
  | inl result => result
  | inr (vendido, enviado) =>
      match fallback_seller soup vendido with
      | inl result => result
      | inr vendido =>
          let enviado := resolve_shipper soup vendido enviado in
          finish vendido enviado
      end
  end.

(** *** The classifier (lines 266-270) *)
Definition classify (vendido enviado : str) : str :=
  if eqb vendido SEM_OFERTA && eqb enviado SEM_OFERTA then SEM_OFERTA
  else if is_amazon_name vendido && is_amazon_name enviado then AMAZON_FO else LFO.

(** *** The recovery loop (lines 224-275) *)

(** [BeautifulSoup(html, "html.parser")] *)
Context (parse_html : str -> Soup).

(** The tuple [(asin, vendido, enviado, status)] that a task returns. *)
Definition Classified : Type := str * str * str * str.

Definition reprocess (asin : str) : Classified :=
  (asin, REPROCESSAR_LABEL, REPROCESSAR_LABEL, REPROCESSAR).

Fixpoint scrape_cycles (asin url : str) (cycles : list nat) : M Classified :=
  match cycles with
  | [] => mret (reprocess asin)
  | cycle :: rest =>
      s ← get_session (0 <? cycle);
      fetched ← safe_get s url REQUEST_TIMEOUT SAFEGET_RETRIES_PER_CYCLE;
      let '(resp, html) := fetched in
      let no_answer : M Classified :=
        if cycle <? MAX_BLOCKED_CYCLES then
          _ ← sleep (Qpower BLOCKED_BACKOFF_BASE (Z.of_nat cycle)) (8 # 10)%Q;
          scrape_cycles asin url rest
        else mret (reprocess asin) in
      match resp with
      | None => no_answer
      | Some r =>
          if is_empty html then no_answer
          else if detect_soft_block resp html then
            if cycle <? MAX_BLOCKED_CYCLES then
              _ ← sleep (Qpower BLOCKED_BACKOFF_BASE (Z.of_nat (cycle + 1))) (12 # 10)%Q;
              scrape_cycles asin url rest
            else mret (reprocess asin)
          else if negb (status_code r =? 200)%Z then
            mret (asin, SEM_OFERTA, SEM_OFERTA, SEM_OFERTA)
          else
            let soup := parse_html html in
            let '(vendido, enviado) := extract_sold_shipped_from_dp soup in
            let status := classify vendido enviado in
            _ ← sleep (6 # 100)%Q (10 # 100)%Q;
            mret (asin, vendido, enviado, status)
      end
  end.

(** The address of the product page (line 225). *)
Definition dp_url (asin : str) : str :=
  AMAZON_DOMAIN ++ lit "/dp/" ++ asin ++ lit "?language=pt_BR".

Definition scrape_one_asin (asin : str) : M Classified :=
  let url := dp_url asin in
  scrape_cycles asin url (seq 0 (MAX_BLOCKED_CYCLES + 1)).

(** *** The coordinator (lines 278-285)

    Task [i] runs [scrape_one_asin] on the [i]-th identifier in a worker
    thread, against the world [worlds i] that the thread shows it.
    [as_completed] hands the futures over in the order in which they
    finish, which is some permutation of the order of submission;
    [fut.result()] raises what the task raised. *)
Definition submit_all (asins : list str) (worlds : nat -> World) : list (Res Classified) :=
  imap (fun i asin => fst (scrape_one_asin asin (worlds i))) asins.

Definition as_completed (futures completed : list (Res Classified)) : Prop :=
  Permutation completed futures.

Fixpoint collect (completed : list (Res Classified)) (results : gmap str (str * str * str))
    : Res (gmap str (str * str * str)) :=
  match completed with
  | [] => Ok results
  | Ok (asin, vendido, enviado, status) :: rest =>
      collect rest (<[asin := (vendido, enviado, status)]> results)
  | Raised :: _ => Raised
  end.

(** [get_offer_info_scrape_parallel asins] may return [results]: the
    tasks finish in some order [completed]. *)
Definition get_offer_info_scrape_parallel (asins : list str) (worlds : nat -> World)
    (completed : list (Res Classified)) (results : Res (gmap str (str * str * str))) : Prop :=
  as_completed (submit_all asins worlds) completed /\ results = collect completed ∅.

(** *** The identifier validator (index, lines 972-978) *)
Definition valid_asins (asin_text : str) : list str :=
  let raw_text := replace_comma asin_text in
  let tokens := re_split_ws udb [] false raw_text in
  let asins_raw :=
    List.map (fun a => upper (strip a))
             (List.filter (fun a => negb (is_empty (strip a))) tokens) in
  List.filter is_valid_asin asins_raw.

(** *** The result table of [index] (lines 988-1031)

    One row for each validated identifier, in the order of the input; the
    counts of the summary are taken over the rows.  ([lfo_pct] and
    [sec_per_asin] are floating-point quotients and are left out.) *)
Record Row := {
  row_asin : str;
  row_vendido : str;
  row_enviado : str;
  row_status : str
}.

(** The body of the loop over [valid_asins] (lines 989-1007). *)
Definition display_row (result_dict : gmap str (str * str * str)) (asin : str) : Row :=
  let '(vendido, enviado, status) :=
    default (SEM_OFERTA, SEM_OFERTA, SEM_OFERTA) (result_dict !! asin) in
  let status_ui := if eqb status REPROCESSAR then lit "Reprocessar" else status in
  {| row_asin := asin; row_vendido := vendido; row_enviado := enviado;
     row_status := status_ui |}.

Definition full_results (result_dict : gmap str (str * str * str)) (asins : list str)
    : list Row :=
  List.map (display_row result_dict) asins.

(** [sum(1 for r in full_results if p(r))] *)
Definition count_rows (p : Row -> bool) (rows : list Row) : nat :=
  length (List.filter p rows).

Record Summary := {
  total : nat;
  lfo_count : nat;
  nooffer_count : nat;
  reproc_count : nat;
  amazonfo_count : nat
}.

(** Lines 1009-1029 *)
Definition summarize (rows : list Row) : Summary :=
  {| total := length rows;
     lfo_count := count_rows (fun r => eqb (row_status r) LFO) rows;
     nooffer_count :=
       count_rows (fun r => eqb (row_status r) SEM_OFERTA
                            && negb (eqb (row_vendido r) REPROCESSAR_LABEL)) rows;
     reproc_count := count_rows (fun r => eqb (row_status r) (lit "Reprocessar")) rows;
     amazonfo_count := count_rows (fun r => eqb (row_status r) AMAZON_FO) rows |}.

(** *** [format_tempo_leitura] (lines 288-298)

    [rounded] is what [int(round(float(seconds)))] yields: [None] when
    the conversion raises, and otherwise the number of seconds rounded to
    an integer.  [str_of_int] is the decimal text that an f-string gives an
    [int]. *)
Definition str_of_int (z : Z) : str := lit (NilZero.string_of_int (Z.to_int z)).

Definition format_tempo_leitura (rounded : option Z) : str :=
  match rounded with
  | None => lit "0seg"
  | Some s =>
      if (s <? 60)%Z then str_of_int s ++ lit "seg"
      else
        let m := (s / 60)%Z in
        let r := (s mod 60)%Z in
        str_of_int m ++ lit "min " ++ str_of_int r ++ lit "seg"
  end.

End Program.
End Web.

(** ** Vocabulary of the properties *)

Module Props.
Import Py Web.

Local Open Scope nat_scope.

Section Props.
Context (udb : UnicodeDB).

(** The body contains [needle] case-insensitively: the lowered body
    contains the (lower-case) needle. *)
Definition body_has (needle html : str) : Prop :=
  contains needle (lower udb html) = true.

(** The signals of a block, as the detector's contract lists them. *)
Definition block_signal (resp : option Response) (html : str) : Prop :=
  resp = None
  \/ (exists r, resp = Some r /\ (status_code r = 429%Z \/ status_code r = 503%Z))
  \/ body_has CAPTCHA_PROMPT html
  \/ body_has AUTOMATED_ACCESS html
  \/ (body_has SORRY html /\ body_has ROBOT html).

(** The body that [safe_get] reads off a response, and what one request
    lets it observe. *)
Definition html_of (resp : option Response) : str :=
  match resp with
  | Some r => text r
  | None => []
  end.

Definition observed (o : Outcome) : option Response * str :=
  match o with
  | Raises => (None, [])
  | Returns resp => (resp, html_of resp)
  end.

(** A request whose answer the block detector lets through. *)
Definition passes (o : Outcome) : bool :=
  match o with
  | Raises => false
  | Returns resp => negb (detect_soft_block udb resp (html_of resp))
  end.

(** One pass of the recovery loop up to its tests: the session, then the
    fetch cycle. *)
Definition fetch_cycle (url : str) (cycle : nat) : M (option Response * str) :=
  s ← get_session (0 <? cycle);
  safe_get udb s url REQUEST_TIMEOUT SAFEGET_RETRIES_PER_CYCLE.

(** A cycle that ends in a missing response, an empty body or a detected
    block. *)
Definition cycle_fails (fetched : option Response * str) : Prop :=
  match fetched with
  | (None, _) => True
  | (Some r, html) => html = [] \/ detect_soft_block udb (Some r) html = true
  end.

(** The world in which the next cycle starts after cycle [cycle] has
    failed with [fetched]: the loop has slept, the longer sleep after a
    detected block. *)
Definition after_failure (cycle : nat) (fetched : option Response * str)
    (w : World) : World :=
  let slept base jitter := snd (sleep base jitter w) in
  match fetched with
  | (Some _, _ :: _) =>
      slept (Qpower BLOCKED_BACKOFF_BASE (Z.of_nat (cycle + 1))) (12 # 10)%Q
  | _ => slept (Qpower BLOCKED_BACKOFF_BASE (Z.of_nat cycle)) (8 # 10)%Q
  end.

(** Every cycle of [cycles], run in turn from [w], fails. *)
Fixpoint every_cycle_fails (url : str) (cycles : list nat) (w : World) : Prop :=
  match cycles with
  | [] => True
  | cycle :: rest =>
      match fetch_cycle url cycle w with
      | (Ok fetched, w1) =>
          cycle_fails fetched /\
          every_cycle_fails url rest (after_failure cycle fetched w1)
      | (Raised, _) => False
      end
  end.

(** The world that the failed cycles leave behind. *)
Fixpoint after_failed_cycles (url : str) (cycles : list nat) (w : World) : World :=
  match cycles with
  | [] => w
  | cycle :: rest =>
      match fetch_cycle url cycle w with
      | (Ok fetched, w1) => after_failed_cycles url rest (after_failure cycle fetched w1)
      | (Raised, w1) => w1
      end
  end.

(** A request that no cycle can use: it raises, or it brings no
    response, an empty body or a blocked page. *)
Definition useless (o : Outcome) : Prop :=
  match o with
  | Raises => True
  | Returns None => True
  | Returns (Some r) => text r = [] \/ detect_soft_block udb (Some r) (text r) = true
  end.

(** A word: a non-empty run of characters none of which is whitespace. *)
Definition word (w : str) : Prop :=
  w <> [] /\ Forall (fun c => isspace udb c = false) w.

(** A whitespace-normalized text: words joined by single spaces, so
    without leading, trailing or repeated whitespace, and with the space
    as its only whitespace. *)
Definition ws_normalized (s : str) : Prop :=
  exists words, Forall word words /\ s = join [32%N] words.

(** A name as the extractor cuts it: the first 80 characters of a
    normalized text.  It is normalized itself, unless the cut has left
    the space after a word at its end. *)
Definition cut_name (s : str) : Prop :=
  s <> [] /\ length s <= 80
  /\ (exists t, ws_normalized t /\ s = firstn 80 t)
  /\ (ws_normalized s
      \/ (length s = 80 /\ exists u, ws_normalized u /\ s = u ++ [32%N])).

(** A text that is empty or starts with a character that is not
    whitespace. *)
Definition starts_clean (s : str) : Prop :=
  match s with
  | [] => True
  | c :: _ => isspace udb c = false
  end.

(** A name that [clean] produced, other than the sentinel. *)
Definition resolved (name : str) : Prop :=
  name <> SEM_OFERTA /\ exists raw, name = clean udb raw.

(** The identifier under which a finished task is filed. *)
Definition asin_of (r : Res Classified) : option str :=
  match r with
  | Ok (asin, _, _, _) => Some asin
  | Raised => None
  end.

(** The normal form of a token, and the tokens of a text. *)
Definition normal (token : str) : str := upper udb (strip udb token).

Definition tokens (asin_text : str) : list str :=
  re_split_ws udb [] false (replace_comma asin_text).

Definition ten_alnum (s : str) : Prop :=
  length s = 10 /\ isalnum udb s = true.

(** The page says that the operator ships: one of the two phrases in its
    text, or a Prime badge. *)
Definition shipping_signal (soup : Soup) : Prop :=
  contains (lit "enviado por amazon") (lower udb (page_text soup)) = true
  \/ contains (lit "ships from amazon") (lower udb (page_text soup)) = true
  \/ prime_hint soup = true.

(** The label of the merchant block as the extractor reads it, and the
    combined label ([Enviado / Vendido], [Shipped from and sold by]). *)
Definition label_text (soup : Soup) : str :=
  match label_el soup with
  | Some t => lower udb (clean udb t)
  | None => []
  end.

Definition combined_label (soup : Soup) : Prop :=
  contains (lit "enviado / vendido") (label_text soup) = true
  \/ contains (lit "shipped from and sold by") (label_text soup) = true.

(** The four kinds of record that a task returns. *)
Definition record_shape (rec : Classified) : Prop :=
  let '(_, vendido, enviado, status) := rec in
  (vendido = REPROCESSAR_LABEL /\ enviado = REPROCESSAR_LABEL /\ status = REPROCESSAR)
  \/ (vendido = SEM_OFERTA /\ enviado = SEM_OFERTA /\ status = SEM_OFERTA)
  \/ (vendido = AMAZON /\ enviado = AMAZON /\ status = AMAZON_FO)
  \/ (resolved vendido /\ is_amazon_name udb vendido = false
      /\ (enviado = vendido \/ enviado = AMAZON) /\ status = LFO).

(** The events of a log. *)
Definition is_get (e : Event) : bool :=
  match e with EvGet _ _ _ => true | _ => false end.

Definition is_sleep (e : Event) : bool :=
  match e with EvSleep _ _ => true | _ => false end.

Definition is_new_session (e : Event) : bool :=
  match e with EvNewSession _ => true | _ => false end.

Definition count_events (p : Event -> bool) (l : list Event) : nat :=
  length (List.filter p l).

(** An event of a fetch made with session [s]: a request with that
    session, or a sleep. *)
Definition fetch_event (s : nat) (url : str) (timeout : Q) (e : Event) : Prop :=
  e = EvGet s url timeout \/ is_sleep e = true.

End Props.

Section Turns.
Context (udb : UnicodeDB) (parse_html : str -> Soup).

(** The four ways in which one turn of the loop ends. *)
Inductive Turn (asin url : str) (cycle : nat) (rest : list nat) (w : World) : Prop :=
| TurnRetry fetched w1 :
    fetch_cycle udb url cycle w = (Ok fetched, w1) ->
    cycle_fails udb fetched ->
    cycle < MAX_BLOCKED_CYCLES ->
    Web.scrape_cycles udb parse_html asin url (cycle :: rest) w =
      Web.scrape_cycles udb parse_html asin url rest (after_failure cycle fetched w1) ->
    Turn asin url cycle rest w
| TurnGiveUp fetched w1 :
    fetch_cycle udb url cycle w = (Ok fetched, w1) ->
    cycle_fails udb fetched ->
    ~ cycle < MAX_BLOCKED_CYCLES ->
    Web.scrape_cycles udb parse_html asin url (cycle :: rest) w = (Ok (reprocess asin), w1) ->
    Turn asin url cycle rest w
| TurnNot200 r html w1 :
    fetch_cycle udb url cycle w = (Ok (Some r, html), w1) ->
    ~ cycle_fails udb (Some r, html) ->
    Web.scrape_cycles udb parse_html asin url (cycle :: rest) w =
      (Ok (asin, SEM_OFERTA, SEM_OFERTA, SEM_OFERTA), w1) ->
    Turn asin url cycle rest w
| TurnParsed r html w1 :
    fetch_cycle udb url cycle w = (Ok (Some r, html), w1) ->
    ~ cycle_fails udb (Some r, html) ->
    Web.scrape_cycles udb parse_html asin url (cycle :: rest) w =
      (Ok (asin,
           fst (extract_sold_shipped_from_dp udb (parse_html html)),
           snd (extract_sold_shipped_from_dp udb (parse_html html)),
           classify udb (fst (extract_sold_shipped_from_dp udb (parse_html html)))
                        (snd (extract_sold_shipped_from_dp udb (parse_html html)))),
       snd (sleep (6 # 100)%Q (10 # 100)%Q w1)) ->
    Turn asin url cycle rest w.

End Turns.

(** A row that counts in exactly one of the four counts, and on which
    the test on the seller of the no-offer count decides nothing. *)
Definition counted_once (r : Row) : Prop :=
  Nat.b2n (eqb (row_status r) LFO)
  + Nat.b2n (eqb (row_status r) AMAZON_FO)
  + Nat.b2n (eqb (row_status r) (lit "Reprocessar"))
  + Nat.b2n (eqb (row_status r) SEM_OFERTA
             && negb (eqb (row_vendido r) REPROCESSAR_LABEL)) = 1
  /\ eqb (row_status r) SEM_OFERTA && negb (eqb (row_vendido r) REPROCESSAR_LABEL)
     = eqb (row_status r) SEM_OFERTA.

(** The characters of a decimal number: the digits and the minus sign. *)
Definition decimal_char (c : char) : Prop :=
  (48 <= c <= 57)%N \/ c = 45%N.

End Props.

(** ** Sample pages, networks and batches *)

Module Samples.
Import Py Web.

Local Open Scope nat_scope.

Definition world0 (n : nat -> Outcome) : World :=
  {| net := n; issued := 0; session := None; next_session := 0; log := [] |}.

Definition page (status : Z) (body : string) : Outcome :=
  Returns (Some {| status_code := status; text := lit body |}).

(** Every request is answered 503. *)
Definition net_blocked : nat -> Outcome := fun _ => page 503 "Service Unavailable".

(** Every request fails in transport. *)
Definition net_down : nat -> Outcome := fun _ => Raises.

(** Three robot checks, then a page that does not exist. *)
Definition not_found : Response :=
  {| status_code := 404; text := lit "Page not found" |}.

Definition net_404 : nat -> Outcome := fun n =>
  if n <? 3 then page 200 "Sorry, we need to make sure you are not a ROBOT"
  else Returns (Some not_found).

(** Every task of a batch sees a network that is down. *)
Definition worlds_down : nat -> World := fun _ => world0 net_down.

(** Two failures, then a product page. *)
Definition net_third : nat -> Outcome := fun n =>
  match n with
  | 0 => Raises
  | 1 => page 429 "Too Many Requests"
  | _ => page 200 "<html>produto</html>"
  end.

Definition no_soup : Soup :=
  {| label_el := None; text_el := None; seller_links := [];
     page_text := []; prime_hint := false |}.

(** The merchant block names the operator under a third-party label. *)
Definition soup_amazon : Soup :=
  {| label_el := Some (lit "Vendido por");
     text_el := Some {| sel_link := None;
                        sel_span := Some (lit "Amazon.com.br");
                        el_text := lit "Amazon.com.br" |};
     seller_links := [lit "Loja XYZ"];
     page_text := lit "Vendido por Amazon.com.br";
     prime_hint := false |}.

(** A third-party merchant under the combined label. *)
Definition soup_loja : Soup :=
  {| label_el := Some (lit "Enviado / Vendido por");
     text_el := Some {| sel_link := Some (lit "Loja   XYZ");
                        sel_span := None;
                        el_text := lit "Loja XYZ" |};
     seller_links := [];
     page_text := lit "Enviado / Vendido por Loja XYZ";
     prime_hint := true |}.

(** A merchant whose name, normalized, is 79 letters, a space and more. *)
Definition long_name : str := repeat 97%N 79 ++ lit " b".

Definition soup_long : Soup :=
  {| label_el := Some (lit "Enviado / Vendido");
     text_el := Some {| sel_link := None; sel_span := None; el_text := long_name |};
     seller_links := [];
     page_text := long_name;
     prime_hint := false |}.

Definition parse_none : str -> Soup := fun _ => no_soup.

Definition asin1 : str := lit "B000000001".
Definition asin2 : str := lit "B000000002".

(** A token that is nine characters long and ends in a sharp s (U+00DF),
    which upper-cases to [SS]. *)
Definition sharp_token : str := lit "abcdefgh" ++ [223%N].

End Samples.

(** * Properties *)

(** ** Strings *)

Module PyFacts.
Import Py.

Lemma eqb_eq (a b : str) : eqb a b = true <-> a = b.
Proof.
  revert b. induction a as [|x a IH]; intros [|y b]; simpl; split;
    try congruence; try (intros; reflexivity).
  - intros H. apply andb_true_iff in H as [Hx Hab].
    apply N.eqb_eq in Hx. apply IH in Hab. congruence.
  - intros H. injection H as -> ->. rewrite N.eqb_refl. simpl. now apply IH.
Qed.

Lemma eqb_neq (a b : str) : eqb a b = false <-> a <> b.
Proof.
  split.
  - intros H E. apply eqb_eq in E. congruence.
  - intros H. destruct (eqb a b) eqn:E; [|reflexivity].
    apply eqb_eq in E. contradiction.
Qed.

Lemma eqb_refl (a : str) : eqb a a = true.
Proof. now apply eqb_eq. Qed.

End PyFacts.

(** ** The block detector *)

Module BlockDetector.
Import Py Web Props.

Lemma detect_soft_block_true (udb : UnicodeDB) (resp : option Response) (html : str) :
  detect_soft_block udb resp html = true <-> block_signal udb resp html.
Proof.
  unfold detect_soft_block, block_signal, body_has.
  destruct resp as [r|].
  2:{ split; auto. }
  destruct (Z.eqb_spec (status_code r) 429) as [E1|N1]; simpl.
  { split; [intros _|reflexivity]. right; left. eauto. }
  destruct (Z.eqb_spec (status_code r) 503) as [E2|N2]; simpl.
  { split; [intros _|reflexivity]. right; left. eauto. }
  destruct (contains CAPTCHA_PROMPT (lower udb html)) eqn:Hc.
  { split; [intros _|reflexivity]. right; right; left. reflexivity. }
  destruct (contains AUTOMATED_ACCESS (lower udb html)) eqn:Ha.
  { split; [intros _|reflexivity]. right; right; right; left. reflexivity. }
  destruct (contains SORRY (lower udb html)) eqn:Hs;
    destruct (contains ROBOT (lower udb html)) eqn:Hr; simpl;
    split; try discriminate; try reflexivity; auto 10.
  all: intros [H|[[r' [H [H'|H']]]|[H|[H|[H1 H2]]]]];
    try discriminate; try (injection H as <-; contradiction).
Qed.

(** C7. [detect_soft_block] reports a block exactly when the response is
    absent, or its status is 429 or 503, or the body contains, whatever
    the case of its letters, the CAPTCHA prompt, the automated-access
    notice, or both [sorry] and [robot]; in every other case it reports
    no block. *)
Theorem detect_soft_block_iff (udb : UnicodeDB) (resp : option Response) (html : str) :
  (detect_soft_block udb resp html = true <-> block_signal udb resp html)
  /\ (detect_soft_block udb resp html = false <-> ~ block_signal udb resp html).
Proof.
  pose proof (detect_soft_block_true udb resp html) as H.
  split; [exact H|].
  destruct (detect_soft_block udb resp html); split; intros H'.
  - discriminate.
  - exfalso. apply H'. now apply H.
  - intros B. apply H in B. discriminate.
  - reflexivity.
Qed.

End BlockDetector.

(** ** The fetch cycle *)

Module FetchCycle.
Import Py Web Props Samples.

Local Open Scope nat_scope.

Section FetchCycle.
Context (udb : UnicodeDB).

(** The world after a request, whatever its outcome. *)
Lemma session_get_world s url timeout w :
  snd (session_get s url timeout w) =
    {| net := net w; issued := S (issued w); session := session w;
       next_session := next_session w;
       log := EvGet s url timeout :: log w |}.
Proof. unfold session_get. now destruct (net w (issued w)). Qed.

(** One turn of the loop of [safe_get]: the request is issued; an answer
    that passes the detector is returned at once, any other becomes
    [last] and the loop sleeps. *)
Lemma safe_get_loop_step s url timeout attempt rest last w :
  safe_get_loop udb s url timeout (attempt :: rest) last w =
    let o := net w (issued w) in
    let w1 := snd (session_get s url timeout w) in
    if passes udb o then (Ok (observed o), w1)
    else safe_get_loop udb s url timeout rest (observed o)
           (snd (sleep ((7 # 10) + inject_Z (Z.of_nat attempt) * (11 # 10))%Q
                       (6 # 10)%Q w1)).
Proof.
  cbn [safe_get_loop].
  unfold mbind, M_bind, mret, M_ret, try_except, session_get, passes, observed, html_of.
  destruct (net w (issued w)) as [|[r|]]; cbv beta iota zeta; cbn [fst snd].
  - reflexivity.
  - destruct (detect_soft_block udb (Some r) (text r)); reflexivity.
  - reflexivity.
Qed.

(** What a run of the loop over [attempts] does, in terms of the answers
    that the network holds ready from request number [issued w] on. *)
Lemma safe_get_loop_spec s url timeout attempts : forall last w,
  exists result w',
    safe_get_loop udb s url timeout attempts last w = (Ok result, w')
    /\ net w' = net w
    /\ session w' = session w
    /\ next_session w' = next_session w
    /\ ((exists n, n < length attempts
           /\ passes udb (net w (issued w + n)) = true
           /\ (forall j, j < n -> passes udb (net w (issued w + j)) = false)
           /\ result = observed (net w (issued w + n))
           /\ issued w' = issued w + n + 1)
        \/ ((forall j, j < length attempts -> passes udb (net w (issued w + j)) = false)
            /\ issued w' = issued w + length attempts
            /\ result = match attempts with
                        | [] => last
                        | _ => observed (net w (issued w + length attempts - 1))
                        end)).
Proof.
  induction attempts as [|attempt rest IH]; intros last w.
  - exists last, w. do 4 (split; [reflexivity|]).
    right. cbn [length]. split; [intros j Hj; lia|]. split; [lia|reflexivity].
  - rewrite safe_get_loop_step. cbv zeta. rewrite session_get_world.
    destruct (passes udb (net w (issued w))) eqn:Hp.
    + eexists _, _. do 4 (split; [reflexivity|]).
      left. exists 0. rewrite Nat.add_0_r. cbn [length].
      split; [lia|]. split; [exact Hp|]. split; [intros j Hj; lia|].
      split; [reflexivity|]. cbn. lia.
    + set (w2 := snd (sleep _ _ _)).
      destruct (IH (observed (net w (issued w))) w2)
        as (result & w' & Hrun & Hnet & Hs & Hns & Hcase).
      assert (Hnet2 : net w2 = net w) by reflexivity.
      assert (Hiss2 : issued w2 = S (issued w)) by reflexivity.
      exists result, w'. split; [exact Hrun|].
      rewrite Hnet, Hs, Hns. do 3 (split; [reflexivity|]).
      rewrite Hnet2, Hiss2 in Hcase.
      destruct Hcase as [(n & Hn & Hpass & Hbefore & Hres & Hiss)
                        |(Hall & Hiss & Hres)].
      * left. exists (S n). cbn [length]. repeat split.
        -- lia.
        -- now replace (issued w + S n) with (S (issued w) + n) by lia.
        -- intros [|j] Hj; [now rewrite Nat.add_0_r|].
           replace (issued w + S j) with (S (issued w) + j) by lia.
           apply Hbefore. lia.
        -- now replace (issued w + S n) with (S (issued w) + n) by lia.
        -- lia.
      * right. cbn [length]. repeat split.
        -- intros [|j] Hj; [now rewrite Nat.add_0_r|].
           replace (issued w + S j) with (S (issued w) + j) by lia.
           apply Hall. lia.
        -- lia.
        -- rewrite Hres. destruct rest as [|a rest'].
           ++ cbn [length]. do 2 f_equal. lia.
           ++ cbn [length]. do 2 f_equal. lia.
Qed.

(** C6. [safe_get] issues at most [max_retries + 1] requests; it returns
    the answer of the first request that the block detector lets through,
    as soon as it has it; when no request gets through it returns what
    the last one let it observe (the blocked response, or no response
    after a transport failure); and it never raises, whatever the
    requests do. *)
Theorem safe_get_bounded s url timeout max_retries w :
  exists result w',
    safe_get udb s url timeout max_retries w = (Ok result, w')
    /\ issued w' - issued w <= max_retries + 1
    /\ (forall n, n <= max_retries ->
          passes udb (net w (issued w + n)) = true ->
          (forall j, j < n -> passes udb (net w (issued w + j)) = false) ->
          result = observed (net w (issued w + n)) /\ issued w' = issued w + n + 1)
    /\ ((forall j, j <= max_retries -> passes udb (net w (issued w + j)) = false) ->
          result = observed (net w (issued w + max_retries))
          /\ issued w' = issued w + max_retries + 1).
Proof.
  unfold safe_get.
  destruct (safe_get_loop_spec s url timeout (seq 0 (max_retries + 1)) (None, []) w)
    as (result & w' & Hrun & _ & _ & _ & Hcase).
  rewrite length_seq in Hcase.
  exists result, w'. split; [exact Hrun|].
  destruct Hcase as [(n & Hn & Hpass & Hbefore & Hres & Hiss)|(Hall & Hiss & Hres)].
  - split; [lia|]. split.
    + intros m Hm Hpm Hbm.
      assert (m = n) as ->.
      { destruct (Nat.lt_trichotomy m n) as [Hlt|[Heq|Hgt]]; [|exact Heq|].
        - rewrite (Hbefore m Hlt) in Hpm. discriminate.
        - rewrite (Hbm n Hgt) in Hpass. discriminate. }
      split; [exact Hres|exact Hiss].
    + intros Hnone. rewrite Hnone in Hpass by lia. discriminate.
  - split; [lia|]. split.
    + intros m Hm Hpm _. rewrite Hall in Hpm by lia. discriminate.
    + intros _. split; [|lia].
      rewrite Hres. replace (max_retries + 1) with (S max_retries) by lia.
      cbn [seq]. do 2 f_equal. lia.
Qed.

(** The session and the thread's other state are left as they were. *)
Lemma safe_get_frame s url timeout max_retries w :
  let w' := snd (safe_get udb s url timeout max_retries w) in
  net w' = net w /\ session w' = session w /\ next_session w' = next_session w.
Proof.
  unfold safe_get.
  destruct (safe_get_loop_spec s url timeout (seq 0 (max_retries + 1)) (None, []) w)
    as (result & w' & Hrun & Hnet & Hs & Hns & _).
  rewrite Hrun. cbn. auto.
Qed.

End FetchCycle.

(** A transport failure and a 429 are retried; the third request brings
    the page, which is returned without a further request. *)
Example safe_get_third :
  let run := safe_get latin1 0 (dp_url asin1) REQUEST_TIMEOUT 2 (world0 net_third) in
  fst run = Ok (Some {| status_code := 200; text := lit "<html>produto</html>" |},
                lit "<html>produto</html>")
  /\ issued (snd run) = 3.
Proof. vm_compute. split; reflexivity. Qed.

(** When the network is down the fetch ends, after three requests, with
    no response and nothing raised. *)
Example safe_get_down :
  let run := safe_get latin1 0 (dp_url asin1) REQUEST_TIMEOUT 2 (world0 net_down) in
  fst run = Ok (None, []) /\ issued (snd run) = 3.
Proof. vm_compute. split; reflexivity. Qed.

End FetchCycle.

(** ** The recovery loop *)

Module RecoveryLoop.
Import Py Web Props PyFacts FetchCycle Samples.

Local Open Scope nat_scope.

Section RecoveryLoop.
Context (udb : UnicodeDB) (parse_html : str -> Soup).

Abbreviation scrape_cycles := (Web.scrape_cycles udb parse_html).
Abbreviation scrape_one_asin := (Web.scrape_one_asin udb parse_html).

Lemma get_session_ok force_new w :
  exists s w0, get_session force_new w = (Ok s, w0)
               /\ net w0 = net w /\ issued w0 = issued w.
Proof.
  unfold get_session.
  destruct (if force_new then None else session w); eexists _, _; eauto.
Qed.

(** A cycle's fetch never raises. *)
Lemma fetch_cycle_ok url cycle w :
  exists fetched w1, fetch_cycle udb url cycle w = (Ok fetched, w1).
Proof.
  unfold fetch_cycle, mbind, M_bind.
  destruct (get_session_ok (0 <? cycle) w) as (s & w0 & -> & _).
  unfold safe_get.
  destruct (safe_get_loop_spec udb s url REQUEST_TIMEOUT
              (seq 0 (SAFEGET_RETRIES_PER_CYCLE + 1)) (None, []) w0)
    as (result & w' & -> & _).
  eauto.
Qed.

(** Opens one turn of the loop along a known fetch. *)
Ltac open_cycle H :=
  cbn [Web.scrape_cycles];
  unfold fetch_cycle, mbind, M_bind in H |- *;
  match type of H with
  | context [get_session ?b ?w] => destruct (get_session b w) as [[?s|] ?w0]
  end; [|discriminate H];
  match type of H with
  | context [safe_get ?u ?s ?url ?t ?m ?w] =>
      destruct (safe_get u s url t m w) as [[?f|] ?w1]
  end; [|discriminate H];
  injection H as -> ->; cbv beta iota zeta.

(** A failed cycle below the limit: the loop sleeps and goes on. *)
Lemma scrape_cycles_retry asin url cycle rest w fetched w1 :
  fetch_cycle udb url cycle w = (Ok fetched, w1) ->
  cycle_fails udb fetched ->
  cycle < MAX_BLOCKED_CYCLES ->
  scrape_cycles asin url (cycle :: rest) w =
  scrape_cycles asin url rest (after_failure cycle fetched w1).
Proof.
  intros H Hf Hc. apply Nat.ltb_lt in Hc. open_cycle H.
  destruct fetched as [[r|] html]; cbv beta iota delta [cycle_fails] in Hf;
    cbv beta iota zeta; rewrite Hc.
  - destruct html as [|c html]; cbn [is_empty].
    + reflexivity.
    + destruct Hf as [Hf|Hf]; [discriminate|]. rewrite Hf. reflexivity.
  - reflexivity.
Qed.

(** A failed cycle at the limit: the loop gives the identifier up. *)
Lemma scrape_cycles_give_up asin url cycle rest w fetched w1 :
  fetch_cycle udb url cycle w = (Ok fetched, w1) ->
  cycle_fails udb fetched ->
  ~ cycle < MAX_BLOCKED_CYCLES ->
  scrape_cycles asin url (cycle :: rest) w = (Ok (reprocess asin), w1).
Proof.
  intros H Hf Hc. apply Nat.ltb_nlt in Hc. open_cycle H.
  destruct fetched as [[r|] html]; cbv beta iota delta [cycle_fails] in Hf;
    cbv beta iota zeta; rewrite Hc.
  - destruct html as [|c html]; cbn [is_empty].
    + reflexivity.
    + destruct Hf as [Hf|Hf]; [discriminate|]. rewrite Hf. reflexivity.
  - reflexivity.
Qed.

(** A usable answer that is not a 200. *)
Lemma scrape_cycles_not_200 asin url cycle rest w r html w1 :
  fetch_cycle udb url cycle w = (Ok (Some r, html), w1) ->
  html <> [] ->
  detect_soft_block udb (Some r) html = false ->
  status_code r <> 200%Z ->
  scrape_cycles asin url (cycle :: rest) w =
  (Ok (asin, SEM_OFERTA, SEM_OFERTA, SEM_OFERTA), w1).
Proof.
  intros H Hne Hnb Hst. apply Z.eqb_neq in Hst. open_cycle H.
  destruct html as [|c html]; [contradiction|]. cbn [is_empty].
  rewrite Hnb, Hst. reflexivity.
Qed.

(** A usable 200: the page is parsed, the pair extracted and classified,
    and the loop returns after its pacing sleep. *)
Lemma scrape_cycles_success asin url cycle rest w r html w1 :
  fetch_cycle udb url cycle w = (Ok (Some r, html), w1) ->
  html <> [] ->
  detect_soft_block udb (Some r) html = false ->
  status_code r = 200%Z ->
  let pair := extract_sold_shipped_from_dp udb (parse_html html) in
  scrape_cycles asin url (cycle :: rest) w =
  (Ok (asin, fst pair, snd pair, classify udb (fst pair) (snd pair)),
   snd (sleep (6 # 100)%Q (10 # 100)%Q w1)).
Proof.
  intros H Hne Hnb Hst. apply Z.eqb_eq in Hst. open_cycle H.
  destruct html as [|c html]; [contradiction|]. cbn [is_empty].
  rewrite Hnb, Hst. cbn [negb].
  destruct (extract_sold_shipped_from_dp udb (parse_html (c :: html))) as [v e].
  reflexivity.
Qed.

(** What a cycle fetches is what its last request let it observe. *)
Lemma fetch_cycle_observes url cycle w :
  exists w1,
    fetch_cycle udb url cycle w = (Ok (observed (net w (pred (issued w1)))), w1)
    /\ net w1 = net w /\ issued w < issued w1.
Proof.
  unfold fetch_cycle, mbind, M_bind.
  destruct (get_session_ok (0 <? cycle) w) as (s & w0 & -> & Hnet0 & Hiss0).
  unfold safe_get.
  destruct (safe_get_loop_spec udb s url REQUEST_TIMEOUT
              (seq 0 (SAFEGET_RETRIES_PER_CYCLE + 1)) (None, []) w0)
    as (result & w1 & Hrun & Hnet & _ & _ & Hcase).
  rewrite Hrun. exists w1. rewrite Hnet, Hnet0, <- Hiss0.
  split; [|split; [reflexivity|]].
  - f_equal. f_equal.
    destruct Hcase as [(n & _ & _ & _ & -> & ->)|(_ & -> & ->)].
    + rewrite Hnet0. do 2 f_equal. lia.
    + rewrite Hnet0. cbn. do 2 f_equal. lia.
  - destruct Hcase as [(n & _ & _ & _ & _ & ->)|(_ & -> & _)]; cbn; lia.
Qed.

(** The failed cycles of a prefix are passed over. *)
Lemma scrape_cycles_failed_prefix asin url pre post : forall w,
  Forall (fun cycle => cycle < MAX_BLOCKED_CYCLES) pre ->
  every_cycle_fails udb url pre w ->
  scrape_cycles asin url (pre ++ post) w =
  scrape_cycles asin url post (after_failed_cycles udb url pre w).
Proof.
  induction pre as [|cycle pre IH]; intros w Hlt Hfail; [reflexivity|].
  inversion Hlt as [|? ? Hc Hlt']; subst.
  cbn [every_cycle_fails after_failed_cycles] in Hfail |- *.
  destruct (fetch_cycle udb url cycle w) as [[fetched|] w1] eqn:Hfetch; [|contradiction].
  destruct Hfail as [Hf Hrest].
  rewrite <- app_comm_cons.
  rewrite (scrape_cycles_retry asin url cycle (pre ++ post) w fetched w1 Hfetch Hf Hc).
  now apply IH.
Qed.

(** When every cycle fails the loop ends in the reprocessing record. *)
Lemma scrape_cycles_all_fail asin url cycles : forall w,
  every_cycle_fails udb url cycles w ->
  exists w', scrape_cycles asin url cycles w = (Ok (reprocess asin), w').
Proof.
  induction cycles as [|cycle rest IH]; intros w Hfail.
  - exists w. reflexivity.
  - cbn [every_cycle_fails] in Hfail.
    destruct (fetch_cycle udb url cycle w) as [[fetched|] w1] eqn:Hfetch; [|contradiction].
    destruct Hfail as [Hf Hrest].
    destruct (lt_dec cycle MAX_BLOCKED_CYCLES) as [Hc|Hc].
    + rewrite (scrape_cycles_retry asin url cycle rest w fetched w1 Hfetch Hf Hc).
      now apply IH.
    + exists w1. now apply scrape_cycles_give_up with (fetched := fetched).
Qed.

(** On a network all of whose answers are useless, every cycle fails. *)
Lemma useless_observed o : useless udb o -> cycle_fails udb (observed o).
Proof.
  destruct o as [|[r|]]; cbn; auto.
Qed.

Lemma after_failure_net cycle fetched w :
  net (after_failure cycle fetched w) = net w.
Proof. destruct fetched as [[r|] [|c html]]; reflexivity. Qed.

Lemma useless_net_fails url cycles : forall w,
  (forall n, useless udb (net w n)) ->
  every_cycle_fails udb url cycles w.
Proof.
  induction cycles as [|cycle rest IH]; intros w Hnet; [exact I|].
  cbn [every_cycle_fails].
  destruct (fetch_cycle_observes url cycle w) as (w1 & -> & Hnet1 & _).
  split; [apply useless_observed, Hnet|].
  apply IH. intros n.
  rewrite after_failure_net, Hnet1. apply Hnet.
Qed.

(** The loop never raises, and files its record under the identifier it
    was given. *)
Lemma scrape_cycles_returns asin url cycles : forall w,
  exists vendido enviado status w',
    scrape_cycles asin url cycles w = (Ok (asin, vendido, enviado, status), w').
Proof.
  induction cycles as [|cycle rest IH]; intros w.
  - cbn. unfold reprocess, mret, M_ret. eauto 6.
  - destruct (fetch_cycle_ok url cycle w) as (fetched & w1 & Hfetch).
    assert (Hfails : cycle_fails udb fetched ->
              exists vendido enviado status w',
                scrape_cycles asin url (cycle :: rest) w
                = (Ok (asin, vendido, enviado, status), w')).
    { intros Hf. destruct (lt_dec cycle MAX_BLOCKED_CYCLES) as [Hc|Hc].
      - rewrite (scrape_cycles_retry asin url cycle rest w fetched w1 Hfetch Hf Hc).
        apply IH.
      - rewrite (scrape_cycles_give_up asin url cycle rest w fetched w1 Hfetch Hf Hc).
        unfold reprocess. eauto 6. }
    destruct fetched as [[r|] html]; [|now apply Hfails].
    destruct html as [|c html]; [apply Hfails; now left|].
    destruct (detect_soft_block udb (Some r) (c :: html)) eqn:Hb;
      [apply Hfails; now right|].
    destruct (Z.eq_dec (status_code r) 200) as [Hst|Hst].
    + rewrite (scrape_cycles_success asin url cycle rest w r (c :: html) w1 Hfetch
                 ltac:(discriminate) Hb Hst).
      eauto 6.
    + rewrite (scrape_cycles_not_200 asin url cycle rest w r (c :: html) w1 Hfetch
                 ltac:(discriminate) Hb Hst).
      eauto 6.
Qed.

Lemma scrape_one_asin_returns asin w :
  exists vendido enviado status w',
    scrape_one_asin asin w = (Ok (asin, vendido, enviado, status), w').
Proof. apply scrape_cycles_returns. Qed.

(** C2. When every cycle of the recovery loop, from cycle 0 to the cycle
    limit, ends in a detected block, a missing response or an empty body,
    the record of the identifier has the reprocessing label as seller and
    as shipper and the status [REPROCESSAR], which is not the no-offer
    status. *)
Theorem scrape_one_asin_reprocess (asin : str) (w : World) :
  every_cycle_fails udb (dp_url asin) (seq 0 (MAX_BLOCKED_CYCLES + 1)) w ->
  exists w',
    scrape_one_asin asin w =
      (Ok (asin, REPROCESSAR_LABEL, REPROCESSAR_LABEL, REPROCESSAR), w')
    /\ REPROCESSAR_LABEL <> SEM_OFERTA
    /\ REPROCESSAR <> SEM_OFERTA.
Proof.
  intros Hfail. unfold Web.scrape_one_asin. cbv zeta.
  destruct (scrape_cycles_all_fail asin (dp_url asin) _ w Hfail) as (w' & Hrun).
  exists w'. split; [exact Hrun|]. split; discriminate.
Qed.

(** C4. When a cycle (after cycles that failed) fetches a response that
    is present, not blocked, with a body, and whose status is not 200, the
    loop returns at once the record whose seller, shipper and status are
    all [Sem Oferta]: the world it leaves is the one in which the fetch
    ended, with that response as the answer of the last request issued;
    no later cycle runs and nothing is requested or slept after it. *)
Theorem scrape_one_asin_not_200 (asin : str) (cycle : nat) (w w1 : World)
    (r : Response) (html : str) :
  cycle <= MAX_BLOCKED_CYCLES ->
  every_cycle_fails udb (dp_url asin) (seq 0 cycle) w ->
  fetch_cycle udb (dp_url asin) cycle
    (after_failed_cycles udb (dp_url asin) (seq 0 cycle) w) = (Ok (Some r, html), w1) ->
  html <> [] ->
  detect_soft_block udb (Some r) html = false ->
  status_code r <> 200%Z ->
  scrape_one_asin asin w = (Ok (asin, SEM_OFERTA, SEM_OFERTA, SEM_OFERTA), w1)
  /\ net w1 (pred (issued w1)) = Returns (Some r).
Proof.
  intros Hc Hfail Hfetch Hne Hnb Hst. split.
  - unfold Web.scrape_one_asin. cbv zeta.
    replace (MAX_BLOCKED_CYCLES + 1) with (cycle + S (MAX_BLOCKED_CYCLES - cycle)) by lia.
    rewrite seq_app. cbn [seq plus].
    rewrite scrape_cycles_failed_prefix; [|apply Forall_forall; intros c Hin;
      apply in_seq in Hin; lia|exact Hfail].
    now apply scrape_cycles_not_200 with (r := r) (html := html).
  - destruct (fetch_cycle_observes (dp_url asin) cycle
                (after_failed_cycles udb (dp_url asin) (seq 0 cycle) w))
      as (w1' & Hobs & Hnet & _).
    rewrite Hobs in Hfetch. injection Hfetch as Hres <-.
    rewrite Hnet. destruct (net _ (pred (issued w1'))) as [|resp]; cbn in Hres.
    + discriminate.
    + unfold html_of in Hres. destruct resp; congruence.
Qed.

End RecoveryLoop.

(** A network that answers 503 to everything: the identifier is marked
    for reprocessing. *)
Lemma scrape_one_asin_reprocess_503 :
  every_cycle_fails latin1 (dp_url asin1) (seq 0 (MAX_BLOCKED_CYCLES + 1))
    (world0 net_blocked)
  /\ exists w',
       Web.scrape_one_asin latin1 parse_none asin1 (world0 net_blocked) =
         (Ok (asin1, REPROCESSAR_LABEL, REPROCESSAR_LABEL, REPROCESSAR), w')
       /\ REPROCESSAR_LABEL <> SEM_OFERTA
       /\ REPROCESSAR <> SEM_OFERTA.
Proof.
  assert (H : every_cycle_fails latin1 (dp_url asin1) (seq 0 (MAX_BLOCKED_CYCLES + 1))
                (world0 net_blocked)).
  { vm_compute. repeat (split; [right; reflexivity|]). exact I. }
  split; [exact H|].
  exact (scrape_one_asin_reprocess latin1 parse_none asin1 (world0 net_blocked) H).
Defined.

(** Three robot checks fail cycle 0; cycle 1 fetches a 404 with its first
    request, and the loop returns [Sem Oferta] after four requests. *)
Lemma scrape_one_asin_404 :
  let w := world0 net_404 in
  let w0 := after_failed_cycles latin1 (dp_url asin1) (seq 0 1) w in
  let w1 := snd (fetch_cycle latin1 (dp_url asin1) 1 w0) in
  (Web.scrape_one_asin latin1 parse_none asin1 w =
     (Ok (asin1, SEM_OFERTA, SEM_OFERTA, SEM_OFERTA), w1)
   /\ net w1 (pred (issued w1)) = Returns (Some not_found))
  /\ issued w1 = 4.
Proof.
  intros w w0 w1. split; [|vm_compute; reflexivity].
  apply (scrape_one_asin_not_200 latin1 parse_none asin1 1 w w1 not_found
           (lit "Page not found")).
  - unfold MAX_BLOCKED_CYCLES. lia.
  - vm_compute. split; [right; reflexivity|exact I].
  - vm_compute. reflexivity.
  - discriminate.
  - vm_compute. reflexivity.
  - cbn. lia.
Defined.

End RecoveryLoop.

(** ** The classifier *)

Module Classifier.
Import Py Web Props PyFacts RecoveryLoop Samples.

Local Open Scope nat_scope.

(** C1. The status of a pair that the extractor produced is a function
    of the pair alone: a cycle that fetches a usable page returns the
    record of the extracted pair with the status [classify] gives it, and
    [classify] gives [Sem Oferta] when both names are the sentinel,
    otherwise [Amazon FO] when both are operator names, and otherwise
    [LFO]. *)
Theorem classify_by_pair (udb : UnicodeDB) (parse_html : str -> Soup) :
  (forall asin url cycle rest w w1 r html,
     fetch_cycle udb url cycle w = (Ok (Some r, html), w1) ->
     html <> [] ->
     detect_soft_block udb (Some r) html = false ->
     status_code r = 200%Z ->
     exists vendido enviado w',
       extract_sold_shipped_from_dp udb (parse_html html) = (vendido, enviado)
       /\ Web.scrape_cycles udb parse_html asin url (cycle :: rest) w =
            (Ok (asin, vendido, enviado, classify udb vendido enviado), w'))
  /\ (forall vendido enviado,
        (vendido = SEM_OFERTA /\ enviado = SEM_OFERTA ->
           classify udb vendido enviado = SEM_OFERTA)
        /\ (~ (vendido = SEM_OFERTA /\ enviado = SEM_OFERTA) ->
            is_amazon_name udb vendido = true /\ is_amazon_name udb enviado = true ->
            classify udb vendido enviado = AMAZON_FO)
        /\ (~ (vendido = SEM_OFERTA /\ enviado = SEM_OFERTA) ->
            ~ (is_amazon_name udb vendido = true /\ is_amazon_name udb enviado = true) ->
            classify udb vendido enviado = LFO)).
Proof.
  split.
  - intros asin url cycle rest w w1 r html Hfetch Hne Hnb Hst.
    pose proof (scrape_cycles_success udb parse_html asin url cycle rest w r html w1
                  Hfetch Hne Hnb Hst) as Hrun.
    cbv zeta in Hrun.
    destruct (extract_sold_shipped_from_dp udb (parse_html html)) as [v e].
    eauto.
  - intros v e. unfold classify.
    destruct (eqb v SEM_OFERTA && eqb e SEM_OFERTA) eqn:Eboth.
    + apply andb_true_iff in Eboth as [Ev Ee].
      apply eqb_eq in Ev. apply eqb_eq in Ee.
      split; [reflexivity|]. split; intros Hn; exfalso; apply Hn; auto.
    + assert (Hnot : ~ (v = SEM_OFERTA /\ e = SEM_OFERTA)).
      { intros [-> ->]. discriminate Eboth. }
      split; [intros H; contradiction|].
      destruct (is_amazon_name udb v && is_amazon_name udb e) eqn:Eam.
      * split; [reflexivity|]. intros _ Hn. exfalso. apply Hn.
        now apply andb_true_iff.
      * split; [|reflexivity]. intros _ Ham.
        apply andb_true_iff in Ham. congruence.
Qed.

(** The three statuses on sample pairs. *)
Example classify_samples :
  classify latin1 SEM_OFERTA SEM_OFERTA = SEM_OFERTA
  /\ classify latin1 AMAZON (lit "Amazon.com.br") = AMAZON_FO
  /\ classify latin1 (lit "Loja XYZ") AMAZON = LFO
  /\ classify latin1 (lit "Loja XYZ") (lit "Loja XYZ") = LFO.
Proof. repeat split. Qed.

End Classifier.

(** ** Whitespace *)

Module Whitespace.
Import Py Web Props PyFacts.

Local Open Scope nat_scope.

Section Whitespace.
Context (udb : UnicodeDB).

Abbreviation nonspace := (fun c : char => isspace udb c = false).

Lemma lstrip_starts_clean s : starts_clean udb s -> lstrip udb s = s.
Proof.
  destruct s as [|c t]; cbn; [reflexivity|]. now intros ->.
Qed.

Lemma starts_clean_lstrip s : starts_clean udb (lstrip udb s).
Proof.
  induction s as [|c t IH]; cbn; [exact I|].
  destruct (isspace udb c) eqn:E; [exact IH|exact E].
Qed.

Lemma lstrip_snoc u c : nonspace c -> lstrip udb (u ++ [c]) = lstrip udb u ++ [c].
Proof.
  intros Hc. induction u as [|x u IH]; cbn.
  - now rewrite Hc.
  - destruct (isspace udb x); [exact IH|reflexivity].
Qed.

(** [rstrip] leaves the first character of a text that starts clean. *)
Lemma starts_clean_rstrip s : starts_clean udb s -> starts_clean udb (rstrip udb s).
Proof.
  destruct s as [|c t]; [intros _; exact I|]. cbn [starts_clean]. intros Hc.
  unfold rstrip. cbn [rev]. rewrite lstrip_snoc by exact Hc.
  rewrite rev_app_distr. exact Hc.
Qed.

Lemma lstrip_idem s : lstrip udb (lstrip udb s) = lstrip udb s.
Proof. apply lstrip_starts_clean, starts_clean_lstrip. Qed.

Lemma rstrip_idem s : rstrip udb (rstrip udb s) = rstrip udb s.
Proof. unfold rstrip. now rewrite rev_involutive, lstrip_idem. Qed.

(** [strip] is idempotent. *)
Lemma strip_idem s : strip udb (strip udb s) = strip udb s.
Proof.
  unfold strip.
  rewrite (lstrip_starts_clean (rstrip udb (lstrip udb s))).
  - apply rstrip_idem.
  - apply starts_clean_rstrip, starts_clean_lstrip.
Qed.

(** *** Words joined by single spaces *)

Lemma join_snoc sep l x :
  join sep (l ++ [x]) = match l with [] => x | _ => join sep l ++ sep ++ x end.
Proof.
  induction l as [|y l IH]; [reflexivity|].
  destruct l as [|z l]; [reflexivity|].
  change (join sep ((y :: z :: l) ++ [x])) with (y ++ sep ++ join sep ((z :: l) ++ [x])).
  rewrite IH. cbn [join]. now rewrite <- !app_assoc.
Qed.

Lemma rev_join sep l : rev (join sep l) = join (rev sep) (List.map (@rev char) (rev l)).
Proof.
  induction l as [|x l IH]; [reflexivity|].
  destruct l as [|y l]; [reflexivity|].
  change (join sep (x :: y :: l)) with (x ++ sep ++ join sep (y :: l)).
  rewrite !rev_app_distr, IH. cbn [rev].
  set (L := rev l ++ [y]).
  replace (List.map (@rev char) (L ++ [x])) with (List.map (@rev char) L ++ [rev x])
    by now rewrite List.map_app.
  rewrite join_snoc.
  destruct (List.map (@rev char) L) eqn:E.
  - apply (f_equal (@length _)) in E. subst L.
    rewrite length_map, length_app in E. cbn in E. lia.
  - now rewrite <- app_assoc.
Qed.

Lemma word_rev w : word udb w -> word udb (rev w).
Proof.
  intros [Hne Hall]. split.
  - intros E. apply Hne. now rewrite <- (rev_involutive w), E.
  - now apply Forall_rev.
Qed.

Lemma ws_normalized_rev s : ws_normalized udb s -> ws_normalized udb (rev s).
Proof.
  intros (words & Hw & ->). exists (List.map (@rev char) (rev words)). split.
  - apply Forall_forall. intros w Hin. apply in_map_iff in Hin as (w0 & <- & Hin).
    apply word_rev. rewrite Forall_forall in Hw. apply Hw. now apply in_rev.
  - apply (rev_join [32%N]).
Qed.

Lemma ws_normalized_starts_clean s : ws_normalized udb s -> starts_clean udb s.
Proof.
  intros (words & Hw & ->).
  destruct words as [|w rest]; [exact I|].
  inversion Hw as [|? ? [Hne Hall] _]; subst.
  destruct w as [|c w]; [contradiction|].
  inversion Hall; subst.
  destruct rest; assumption.
Qed.

(** A normalized text is left alone by [strip]. *)
Lemma ws_normalized_strip s : ws_normalized udb s -> strip udb s = s.
Proof.
  intros H. unfold strip, rstrip.
  rewrite (lstrip_starts_clean s) by now apply ws_normalized_starts_clean.
  rewrite (lstrip_starts_clean (rev s))
    by now apply ws_normalized_starts_clean, ws_normalized_rev.
  apply rev_involutive.
Qed.

Lemma re_sub_ws_word x : Forall nonspace x -> forall b rest,
  re_sub_ws udb b (x ++ rest) =
  x ++ re_sub_ws udb (match x with [] => b | _ => false end) rest.
Proof.
  induction 1 as [|c x Hc Hx IH]; intros b rest; [reflexivity|].
  cbn [app re_sub_ws]. rewrite Hc, IH. now destruct x.
Qed.

(** ... and by the second normalization of [clean]. *)
Lemma re_sub_ws_join words : Forall (word udb) words -> forall b,
  re_sub_ws udb b (join [32%N] words) = join [32%N] words.
Proof.
  induction 1 as [|w rest [Hne Hall] Hrest IH]; intros b; [reflexivity|].
  destruct rest as [|w' rest].
  - cbn [join]. rewrite <- (app_nil_r w) at 1.
    rewrite re_sub_ws_word by exact Hall. cbn. now rewrite app_nil_r.
  - change (join [32%N] (w :: w' :: rest)) with (w ++ [32%N] ++ join [32%N] (w' :: rest)).
    rewrite re_sub_ws_word by exact Hall.
    destruct w as [|c w]; [contradiction|].
    cbn [app]. f_equal. f_equal. cbn [re_sub_ws].
    change (isspace udb 32%N) with true. cbv iota. f_equal. apply IH.
Qed.

(** [split] yields words. *)
Lemma split_from_words s : forall cur,
  Forall nonspace cur -> Forall (word udb) (split_from udb cur s).
Proof.
  assert (Hflush : forall cur k, Forall nonspace cur -> Forall (word udb) k ->
                                 Forall (word udb) (flush cur k)).
  { intros [|c cur] k Hcur Hk; [exact Hk|]. cbn [flush]. constructor; [|exact Hk].
    apply word_rev. split; [discriminate|exact Hcur]. }
  induction s as [|c t IH]; intros cur Hcur; cbn [split_from].
  - now apply Hflush.
  - destruct (isspace udb c) eqn:E.
    + apply Hflush; [exact Hcur|]. apply IH. constructor.
    + apply IH. now constructor.
Qed.

(** [normalize_spaces] returns the words of the text, joined by single
    spaces. *)
Lemma normalize_spaces_join s :
  normalize_spaces udb s = join [32%N] (split udb s)
  /\ ws_normalized udb (normalize_spaces udb s).
Proof.
  assert (H : ws_normalized udb (join [32%N] (split udb s))).
  { exists (split udb s). split; [|reflexivity]. apply split_from_words. constructor. }
  unfold normalize_spaces. rewrite (ws_normalized_strip _ H). auto.
Qed.

(** What [clean] returns: the sentinel, or the first 80 characters of
    the normalized text. *)
Lemma clean_cut raw :
  (normalize_spaces udb raw = [] /\ clean udb raw = SEM_OFERTA)
  \/ (normalize_spaces udb raw <> []
      /\ clean udb raw = firstn 80 (normalize_spaces udb raw)).
Proof.
  unfold clean.
  destruct (normalize_spaces_join raw) as [_ Hn].
  destruct (normalize_spaces udb raw) as [|c t] eqn:E; [left; auto|].
  right. split; [discriminate|]. cbn [is_empty].
  destruct Hn as (words & Hw & Hj).
  rewrite Hj, (re_sub_ws_join words Hw false).
  rewrite (ws_normalized_strip (join [32%N] words)) by (exists words; auto).
  rewrite <- Hj. reflexivity.
Qed.

(** A prefix of a word is empty or a word. *)
Lemma firstn_word n w : word udb w -> firstn n w = [] \/ word udb (firstn n w).
Proof.
  intros [Hne Hall]. destruct (firstn n w) eqn:E; [now left|right].
  rewrite <- E. split.
  - rewrite E. discriminate.
  - now apply Forall_take.
Qed.

Lemma ws_normalized_one w : word udb w -> ws_normalized udb w.
Proof. intros H. exists [w]. split; [now constructor|reflexivity]. Qed.

Lemma ws_normalized_nil : ws_normalized udb [].
Proof. exists []. split; [constructor|reflexivity]. Qed.

(** A word, a space and a non-empty normalized text make a normalized
    text. *)
Lemma ws_normalized_cons w t :
  word udb w -> ws_normalized udb t -> t <> [] ->
  ws_normalized udb (w ++ 32%N :: t).
Proof.
  intros Hw (words & Hwords & ->) Hne.
  destruct words as [|w' rest]; [contradiction|].
  exists (w :: w' :: rest). split; [now constructor|reflexivity].
Qed.

(** A prefix of a normalized text is normalized, or a normalized text and
    the space that followed it. *)
Lemma firstn_join words : Forall (word udb) words -> forall n,
  ws_normalized udb (firstn n (join [32%N] words))
  \/ exists u, ws_normalized udb u /\ u <> []
               /\ firstn n (join [32%N] words) = u ++ [32%N].
Proof.
  induction 1 as [|w rest Hw Hrest IH]; intros n.
  { left. cbn [join]. rewrite firstn_nil. apply ws_normalized_nil. }
  assert (Hprefix : forall k, ws_normalized udb (firstn k w)).
  { intros k. destruct (firstn_word k w Hw) as [->|Hk];
      [apply ws_normalized_nil|now apply ws_normalized_one]. }
  destruct rest as [|w' rest]; [left; apply Hprefix|].
  change (join [32%N] (w :: w' :: rest)) with (w ++ 32%N :: join [32%N] (w' :: rest)).
  set (J := join [32%N] (w' :: rest)) in *.
  assert (HJ : forall k, firstn (S k) J <> []).
  { intros k. subst J. inversion Hrest as [|? ? [Hne' _] _]; subst.
    destruct w' as [|c w']; [contradiction|]. destruct rest; discriminate. }
  rewrite firstn_app.
  destruct (Nat.le_gt_cases n (length w)) as [Hle|Hgt].
  - left. replace (n - length w) with 0 by lia. cbn [firstn].
    rewrite app_nil_r. apply Hprefix.
  - rewrite firstn_all2 by lia.
    destruct (n - length w) as [|k] eqn:Ek; [lia|]. cbn [firstn].
    destruct k as [|k].
    + right. exists w. cbn [firstn].
      split; [now apply ws_normalized_one|]. split; [now destruct Hw|reflexivity].
    + destruct (IH (S k)) as [Hq|(u & Hu & Hune & Hq)].
      * left. apply ws_normalized_cons; [exact Hw|exact Hq|apply HJ].
      * right. exists (w ++ 32%N :: u). split; [|split].
        -- now apply ws_normalized_cons.
        -- destruct w; discriminate.
        -- rewrite Hq. now rewrite <- app_assoc.
Qed.

Lemma clean_cut_name raw : clean udb raw = SEM_OFERTA \/ cut_name udb (clean udb raw).
Proof.
  destruct (clean_cut raw) as [[_ H]|[Hne H]]; [now left|right].
  destruct (normalize_spaces_join raw) as [_ Hnorm].
  rewrite H. unfold cut_name. split; [|split; [|split]].
  - destruct (normalize_spaces udb raw); [contradiction|discriminate].
  - apply firstn_le_length.
  - exists (normalize_spaces udb raw). split; [exact Hnorm|reflexivity].
  - destruct (Nat.le_gt_cases (length (normalize_spaces udb raw)) 80) as [Hle|Hgt].
    + left. now rewrite firstn_all2.
    + destruct Hnorm as (words & Hwords & Hj). rewrite Hj in Hgt |- *.
      destruct (firstn_join words Hwords 80) as [Hn|(u & Hu & _ & Hq)]; [now left|].
      right. split; [apply firstn_length_le; lia|eauto].
Qed.

End Whitespace.
End Whitespace.

(** ** The merchant extractor *)

Module Extractor.
Import Py Web Props PyFacts Whitespace Samples.

Local Open Scope nat_scope.

Section Extractor.
Context (udb : UnicodeDB).

Abbreviation extract := (extract_sold_shipped_from_dp udb).

(** The sentinel is not an operator name, and [Amazon] is one. *)
Lemma sentinel_not_amazon : is_amazon_name udb SEM_OFERTA = false.
Proof. reflexivity. Qed.

Lemma amazon_is_amazon : is_amazon_name udb AMAZON = true.
Proof. reflexivity. Qed.

Lemma amazon_not_sentinel : AMAZON <> SEM_OFERTA.
Proof. discriminate. Qed.

Lemma amazon_name_not_sentinel name :
  is_amazon_name udb name = true -> eqb name SEM_OFERTA = false.
Proof.
  intros H. apply eqb_neq. intros ->. rewrite sentinel_not_amazon in H. discriminate.
Qed.

(** C5. When the name that the merchant-info block resolves to is an
    operator name, the extractor returns [Amazon] as seller and as
    shipper, and the pair is classified [Amazon FO], whatever the label of
    the block and the rest of the page say. *)
Theorem merchant_block_operator (label : option str) (block : option Element)
    (links : list str) (page : str) (prime : bool) :
  is_amazon_name udb (pick_merchant_text udb block) = true ->
  extract {| label_el := label; text_el := block; seller_links := links;
             page_text := page; prime_hint := prime |} = (AMAZON, AMAZON)
  /\ classify udb AMAZON AMAZON = AMAZON_FO.
Proof.
  intros H. split; [|reflexivity].
  unfold extract_sold_shipped_from_dp, merchant_block. cbn [text_el label_el].
  rewrite (amazon_name_not_sentinel _ H), H. reflexivity.
Qed.

Lemma pick_merchant_text_resolved root :
  pick_merchant_text udb root <> SEM_OFERTA -> resolved udb (pick_merchant_text udb root).
Proof.
  intros H. split; [exact H|]. unfold pick_merchant_text in *.
  destruct root as [el|]; [|contradiction].
  destruct (sel_link el); [eauto|]. destruct (sel_span el); eauto.
Qed.

Lemma scan_seller_links_resolved links name :
  scan_seller_links udb links = ScanName name -> resolved udb name.
Proof.
  induction links as [|link rest IH]; cbn [scan_seller_links]; [discriminate|].
  destruct (eqb (clean udb link) SEM_OFERTA) eqn:E; cbn [negb andb]; [exact IH|].
  destruct (length (split udb (clean udb link)) <=? 6); [|exact IH].
  destruct (is_amazon_name udb (clean udb link)); [discriminate|].
  intros [= <-]. split; [now apply eqb_neq|eauto].
Qed.

(** The three shapes of what the extractor returns. *)
Lemma extract_shape soup :
  extract soup = (SEM_OFERTA, SEM_OFERTA)
  \/ extract soup = (AMAZON, AMAZON)
  \/ exists name, resolved udb name
       /\ (extract soup = (name, name) \/ extract soup = (name, AMAZON)).
Proof.
  unfold extract_sold_shipped_from_dp, merchant_block.
  set (label_txt := match label_el soup with Some t => _ | None => _ end).
  set (m := pick_merchant_text udb (text_el soup)).
  assert (Hm : m <> SEM_OFERTA -> resolved udb m) by apply pick_merchant_text_resolved.
  clearbody m label_txt.
  assert (Hopen : forall name, resolved udb name ->
            finish name (resolve_shipper udb soup name SEM_OFERTA) = (name, name)
            \/ finish name (resolve_shipper udb soup name SEM_OFERTA) = (name, AMAZON)).
  { intros name [Hne _]. apply eqb_neq in Hne.
    unfold resolve_shipper, finish. rewrite Hne, eqb_refl. cbn [negb andb].
    destruct (_ || _); [now right|]. destruct (prime_hint soup); [now right|now left]. }
  destruct (eqb m SEM_OFERTA) eqn:Em; cbn [negb].
  - unfold fallback_seller. rewrite eqb_refl.
    destruct (scan_seller_links udb (seller_links soup)) as [|name|] eqn:Escan.
    + now right; left.
    + apply scan_seller_links_resolved in Escan.
      right; right. exists name. split; [exact Escan|now apply Hopen].
    + left. reflexivity.
  - destruct (is_amazon_name udb m); [now right; left|].
    apply eqb_neq in Em. specialize (Hm Em).
    right; right. exists m. split; [exact Hm|].
    destruct (_ || _); unfold fallback_seller;
      rewrite (proj2 (eqb_neq m SEM_OFERTA) Em); [|now apply Hopen].
    left. unfold resolve_shipper, finish.
    rewrite (proj2 (eqb_neq m SEM_OFERTA) Em). reflexivity.
Qed.

(** C10. In the pair that the extractor returns the seller is the
    [Sem Oferta] sentinel exactly when the shipper is: a resolved seller
    never comes with a sentinel shipper, nor a sentinel seller with a
    resolved shipper. *)
Theorem extract_sentinel_together (soup : Soup) :
  fst (extract soup) = SEM_OFERTA <-> snd (extract soup) = SEM_OFERTA.
Proof.
  destruct (extract_shape soup) as [E|[E|(name & [Hne _] & [E|E])]];
    rewrite E; cbn [fst snd].
  - split; reflexivity.
  - split; intros H; discriminate H.
  - split; intros H; contradiction.
  - split; intros H; [contradiction|discriminate H].
Qed.

Lemma amazon_cut_name : cut_name udb AMAZON.
Proof.
  assert (H : ws_normalized udb AMAZON).
  { apply ws_normalized_one. split; [discriminate|]. repeat constructor. }
  split; [discriminate|]. split; [cbn; lia|]. split; [|now left].
  exists AMAZON. split; [exact H|reflexivity].
Qed.

Lemma resolved_cut_name name : resolved udb name -> cut_name udb name.
Proof.
  intros [Hne [raw ->]]. destruct (clean_cut_name udb raw); [contradiction|assumption].
Qed.

(** C9, as the extractor has it.  Each of the two names it returns is the
    [Sem Oferta] sentinel or a non-empty text of at most 80 characters
    that is the first 80 characters of a whitespace-normalized text: it
    is whitespace-normalized itself, except that a name of 80 characters
    may end in the space at which it was cut.  A text that is empty once
    normalized is cleaned to the sentinel, and neither name is ever
    empty. *)
Theorem extract_names_cut (soup : Soup) :
  (forall name, name = fst (extract soup) \/ name = snd (extract soup) ->
     name = SEM_OFERTA \/ cut_name udb name)
  /\ (forall raw, normalize_spaces udb raw = [] -> clean udb raw = SEM_OFERTA)
  /\ fst (extract soup) <> [] /\ snd (extract soup) <> [].
Proof.
  assert (Hnames : forall name,
            name = fst (extract soup) \/ name = snd (extract soup) ->
            name = SEM_OFERTA \/ cut_name udb name).
  { intros name Hname.
    destruct (extract_shape soup) as [E|[E|(n & Hres & [E|E])]];
      rewrite E in Hname; cbn [fst snd] in Hname.
    - left. now destruct Hname.
    - right. destruct Hname as [->| ->]; apply amazon_cut_name.
    - right. destruct Hname as [->| ->]; now apply resolved_cut_name.
    - right. destruct Hname as [->| ->];
        [now apply resolved_cut_name|apply amazon_cut_name]. }
  assert (Hnonempty : forall name,
            name = SEM_OFERTA \/ cut_name udb name -> name <> []).
  { intros name [->|[Hne _]]; [discriminate|exact Hne]. }
  split; [exact Hnames|]. split.
  - intros raw Hraw. destruct (clean_cut udb raw) as [[_ H]|[Hne _]];
      [exact H|contradiction].
  - split; apply Hnonempty, Hnames; auto.
Qed.

End Extractor.

(** The merchant block names [Amazon.com.br] under a [Vendido por]
    label. *)
Lemma merchant_block_operator_sample :
  is_amazon_name latin1 (pick_merchant_text latin1 (text_el soup_amazon)) = true
  /\ extract_sold_shipped_from_dp latin1 soup_amazon = (AMAZON, AMAZON)
  /\ classify latin1 AMAZON AMAZON = AMAZON_FO.
Proof.
  split; [reflexivity|].
  apply (merchant_block_operator latin1 (label_el soup_amazon) (text_el soup_amazon)
           (seller_links soup_amazon) (page_text soup_amazon) (prime_hint soup_amazon)).
  reflexivity.
Defined.

(** A third-party merchant under the combined label ships itself, Prime
    badge or not; a page without merchant block or seller link has no
    offer. *)
Example extract_loja :
  extract_sold_shipped_from_dp latin1 soup_loja = (lit "Loja XYZ", lit "Loja XYZ")
  /\ classify latin1 (lit "Loja XYZ") (lit "Loja XYZ") = LFO.
Proof. vm_compute. split; reflexivity. Qed.

Example extract_no_soup :
  extract_sold_shipped_from_dp latin1 no_soup = (SEM_OFERTA, SEM_OFERTA)
  /\ classify latin1 SEM_OFERTA SEM_OFERTA = SEM_OFERTA.
Proof. vm_compute. split; reflexivity. Qed.

(** C9, as stated, fails on a merchant name whose normalized text has a
    space as its 80th character: the name returned ends in that space. *)
Lemma extract_long_name_not_normalized :
  ~ (forall name,
       name = fst (extract_sold_shipped_from_dp latin1 soup_long)
       \/ name = snd (extract_sold_shipped_from_dp latin1 soup_long) ->
       name = SEM_OFERTA
       \/ (name <> [] /\ ws_normalized latin1 name /\ length name <= 80)).
Proof.
  intros H.
  destruct (H _ (or_introl eq_refl)) as [E|(_ & Hn & _)].
  - vm_compute in E. discriminate E.
  - apply ws_normalized_strip in Hn. vm_compute in Hn. discriminate Hn.
Qed.

(** The seller that the extractor returns there. *)
Example extract_long_name :
  extract_sold_shipped_from_dp latin1 soup_long
  = (repeat 97%N 79 ++ [32%N], repeat 97%N 79 ++ [32%N]).
Proof. vm_compute. reflexivity. Qed.

End Extractor.

(** ** The identifier validator *)

Module Validator.
Import Py Web Props PyFacts Whitespace Samples.

Local Open Scope nat_scope.

Section Validator.
Context (udb : UnicodeDB).

Ltac by_cases :=
  repeat match goal with
         | |- context [N.leb ?a ?b] => destruct (N.leb_spec a b)
         | |- context [N.ltb ?a ?b] => destruct (N.ltb_spec a b)
         end;
  cbn [andb orb]; try reflexivity; lia.

(** ASCII upper-casing changes neither the class of a character ... *)
Lemma isspace_ascii_upper c : isspace udb (ascii_upper c) = isspace udb c.
Proof.
  unfold isspace, ascii_upper, ascii_isspace.
  destruct ((97 <=? c)%N && (c <=? 122)%N) eqn:E.
  - apply andb_true_iff in E as [E1 E2].
    apply N.leb_le in E1. apply N.leb_le in E2. by_cases.
  - now rewrite ?E.
Qed.

Lemma isalnum_char_ascii_upper c :
  isalnum_char udb (ascii_upper c) = isalnum_char udb c.
Proof.
  unfold isalnum_char, ascii_upper, ascii_isalnum.
  destruct ((97 <=? c)%N && (c <=? 122)%N) eqn:E.
  - apply andb_true_iff in E as [E1 E2].
    apply N.leb_le in E1. apply N.leb_le in E2. by_cases.
  - now rewrite ?E.
Qed.

(** ... nor, then, what [strip] and [isalnum] make of a text. *)
Lemma lstrip_ascii_upper s :
  lstrip udb (List.map ascii_upper s) = List.map ascii_upper (lstrip udb s).
Proof.
  induction s as [|c t IH]; [reflexivity|].
  cbn [List.map lstrip]. rewrite isspace_ascii_upper.
  destruct (isspace udb c); [exact IH|reflexivity].
Qed.

Lemma strip_ascii_upper s :
  strip udb (List.map ascii_upper s) = List.map ascii_upper (strip udb s).
Proof.
  unfold strip, rstrip.
  now rewrite lstrip_ascii_upper, <- List.map_rev, lstrip_ascii_upper, List.map_rev.
Qed.

Lemma isalnum_ascii_upper s : isalnum udb (List.map ascii_upper s) = isalnum udb s.
Proof.
  assert (H : forall u, forallb (isalnum_char udb) (List.map ascii_upper u)
                        = forallb (isalnum_char udb) u).
  { induction u as [|x u IH]; [reflexivity|].
    cbn [List.map forallb]. now rewrite isalnum_char_ascii_upper, IH. }
  destruct s as [|c t]; [reflexivity|].
  unfold isalnum. cbn [List.map]. apply (H (c :: t)).
Qed.

Lemma is_ascii_lstrip s : is_ascii s = true -> is_ascii (lstrip udb s) = true.
Proof.
  induction s as [|c t IH]; [reflexivity|].
  intros H. cbn [lstrip]. destruct (isspace udb c); [|exact H].
  apply IH. cbn in H. now apply andb_true_iff in H as [_ H].
Qed.

Lemma is_ascii_rev s : is_ascii (rev s) = is_ascii s.
Proof.
  unfold is_ascii.
  match goal with |- forallb ?f _ = _ => generalize f; intros g end.
  induction s as [|c t IH]; [reflexivity|].
  cbn [rev forallb]. rewrite List.forallb_app. cbn [forallb].
  rewrite andb_true_r, andb_comm. f_equal. exact IH.
Qed.

Lemma is_ascii_strip s : is_ascii s = true -> is_ascii (strip udb s) = true.
Proof.
  intros H. unfold strip, rstrip. rewrite is_ascii_rev.
  apply is_ascii_lstrip. rewrite is_ascii_rev. now apply is_ascii_lstrip.
Qed.

(** The test of [is_valid_asin], read as a statement. *)
Lemma is_valid_asin_iff a : is_valid_asin udb a = true <-> ten_alnum udb (strip udb a).
Proof.
  unfold is_valid_asin, ten_alnum. rewrite andb_true_iff, Nat.eqb_eq. reflexivity.
Qed.

(** On an ASCII token, the normal form passes the test exactly when the
    trimmed token does. *)
Lemma normal_ascii_valid t :
  is_ascii t = true ->
  (ten_alnum udb (strip udb (normal udb t)) <-> ten_alnum udb (strip udb t)).
Proof.
  intros H. unfold normal, upper. rewrite (is_ascii_strip t H).
  rewrite strip_ascii_upper, strip_idem. unfold ten_alnum.
  now rewrite length_map, isalnum_ascii_upper.
Qed.

(** C3, as the validator has it.  The output holds exactly the normal
    forms (trimmed, then upper-cased) of the tokens whose normal form is,
    once trimmed, ten alphanumeric characters; every other token is left
    out, and nothing is raised.  For an ASCII token this is the same as
    the trimmed token being ten alphanumeric characters. *)
Theorem valid_asins_normal (asin_text : str) :
  (forall x, In x (valid_asins udb asin_text) <->
     exists t, In t (tokens udb asin_text) /\ x = normal udb t
               /\ ten_alnum udb (strip udb x))
  /\ (forall t, In t (tokens udb asin_text) ->
        (In (normal udb t) (valid_asins udb asin_text) <->
         ten_alnum udb (strip udb (normal udb t))))
  /\ (forall t, In t (tokens udb asin_text) -> is_ascii t = true ->
        (In (normal udb t) (valid_asins udb asin_text) <->
         ten_alnum udb (strip udb t))).
Proof.
  assert (Hmem : forall x, In x (valid_asins udb asin_text) <->
            exists t, In t (tokens udb asin_text) /\ x = normal udb t
                      /\ ten_alnum udb (strip udb x)).
  { intros x. unfold valid_asins. fold (tokens udb asin_text).
    rewrite filter_In, in_map_iff, is_valid_asin_iff. split.
    - intros [(t & <- & Ht) Hx]. apply filter_In in Ht as [Ht _]. eauto.
    - intros (t & Ht & -> & Hx). split; [|exact Hx].
      exists t. split; [reflexivity|]. apply filter_In. split; [exact Ht|].
      destruct (strip udb t) eqn:E; [|reflexivity].
      unfold normal in Hx. rewrite E in Hx. destruct Hx as [Hlen _]. discriminate Hlen. }
  assert (Htok : forall t, In t (tokens udb asin_text) ->
            (In (normal udb t) (valid_asins udb asin_text) <->
             ten_alnum udb (strip udb (normal udb t)))).
  { intros t Ht. rewrite Hmem. split.
    - intros (t' & _ & -> & Hx). exact Hx.
    - intros Hx. eauto. }
  split; [exact Hmem|]. split; [exact Htok|].
  intros t Ht Hascii. rewrite (Htok t Ht). now apply normal_ascii_valid.
Qed.

End Validator.

(** C3, as stated, fails on a token of nine characters that ends in a
    sharp s: upper-casing makes it ten characters long, and it is let
    in. *)
Lemma sharp_token_included :
  ~ (forall t, In t (tokens latin1 sharp_token) ->
       (In (normal latin1 t) (valid_asins latin1 sharp_token) <->
        ten_alnum latin1 (strip latin1 t))).
Proof.
  intros H.
  assert (Ht : In sharp_token (tokens latin1 sharp_token)) by (vm_compute; auto).
  destruct (H _ Ht) as [Hin _].
  assert (Hx : In (normal latin1 sharp_token) (valid_asins latin1 sharp_token))
    by (vm_compute; auto).
  destruct (Hin Hx) as [Hlen _]. vm_compute in Hlen. discriminate Hlen.
Qed.

(** What the validator lets in there. *)
Example sharp_token_valid :
  valid_asins latin1 sharp_token = [lit "ABCDEFGHSS"].
Proof. vm_compute. reflexivity. Qed.

End Validator.

(** ** The coordinator *)

Module Coordinator.
Import Py Web Props PyFacts RecoveryLoop Samples.

Local Open Scope nat_scope.

Section Coordinator.
Context (udb : UnicodeDB) (parse_html : str -> Soup).

Abbreviation submit_all := (Web.submit_all udb parse_html).
Abbreviation run := (Web.get_offer_info_scrape_parallel udb parse_html).

(** The futures are filed, in the order of submission, under the
    identifiers of the batch. *)
Lemma submit_all_asins asins : forall worlds,
  omap asin_of (submit_all asins worlds) = asins
  /\ Forall (fun r => is_Some (asin_of r)) (submit_all asins worlds).
Proof.
  induction asins as [|asin rest IH]; intros worlds; [split; constructor|].
  unfold Web.submit_all. rewrite imap_cons.
  destruct (IH (worlds ∘ S)) as [Hkeys Hall].
  destruct (scrape_one_asin_returns udb parse_html asin (worlds 0))
    as (v & e & st & w' & Hrun).
  cbn [omap list_omap]. rewrite Hrun. cbn [fst asin_of]. split.
  - f_equal. exact Hkeys.
  - constructor; [eauto|exact Hall].
Qed.

(** Filing records that all carry an identifier adds their identifiers
    to the keys. *)
Lemma collect_dom completed : forall results : gmap str (str * str * str),
  Forall (fun r => is_Some (asin_of r)) completed ->
  exists m, collect completed results = Ok m
            /\ dom m = dom results ∪ list_to_set (omap asin_of completed).
Proof.
  induction completed as [|r rest IH]; intros results Hall.
  - exists results. split; [reflexivity|].
    cbn [omap list_omap]. now rewrite list_to_set_nil, (right_id_L ∅ (∪)).
  - inversion Hall as [|? ? [asin Hr] Hrest]; subst.
    destruct r as [[[[a v] e] st]|]; [|discriminate Hr].
    cbn [collect omap list_omap asin_of].
    destruct (IH (<[a := (v, e, st)]> results) Hrest) as (m & Hm & Hdom).
    exists m. split; [exact Hm|].
    rewrite Hdom, dom_insert_L, list_to_set_cons.
    now rewrite (comm_L (∪) {[a]} (dom results)), (assoc_L (∪)).
Qed.

(** Whatever the order of completion, the keys of the result are the
    identifiers of the batch. *)
Lemma coordinator_dom asins worlds completed results :
  run asins worlds completed results ->
  exists m, results = Ok m /\ dom m = list_to_set asins.
Proof.
  intros [Hperm ->]. unfold as_completed in Hperm.
  destruct (submit_all_asins asins worlds) as [Hkeys Hall].
  destruct (collect_dom completed ∅) as (m & Hm & Hdom).
  { eapply Permutation_Forall; [symmetry; exact Hperm|exact Hall]. }
  exists m. split; [exact Hm|].
  rewrite Hdom, dom_empty_L, (left_id_L ∅ (∪)).
  transitivity (list_to_set (C := gset str) (omap asin_of (submit_all asins worlds)));
    [|now rewrite Hkeys].
  apply list_to_set_perm_L. now rewrite Hperm.
Qed.

(** C8, as the coordinator has it.  Whatever the order in which the
    tasks finish, the mapping returned has one entry for each distinct
    identifier of the batch and no other entry; it has as many entries as
    the batch has identifiers when these are pairwise distinct. *)
Theorem coordinator_one_entry_per_asin (asins : list str) (worlds : nat -> World)
    (completed : list (Res Classified)) (results : Res (gmap str (str * str * str))) :
  run asins worlds completed results ->
  exists m,
    results = Ok m
    /\ (forall asin, is_Some (m !! asin) <-> In asin asins)
    /\ size m = length (remove_dups asins)
    /\ (List.NoDup asins -> size m = length asins).
Proof.
  intros Hrun. destruct (coordinator_dom asins worlds completed results Hrun)
    as (m & -> & Hdom).
  assert (Hsize : size m = length (remove_dups asins)).
  { rewrite <- size_dom, Hdom.
    replace (list_to_set asins) with (list_to_set (C := gset str) (remove_dups asins)).
    - apply size_list_to_set, NoDup_remove_dups.
    - apply set_eq. intros x.
      now rewrite !elem_of_list_to_set, elem_of_remove_dups. }
  exists m. split; [reflexivity|]. split; [|split].
  - intros asin. rewrite <- elem_of_dom, Hdom, elem_of_list_to_set.
    apply list_elem_of_In.
  - exact Hsize.
  - intros Hnd. rewrite <- size_dom, Hdom.
    now apply size_list_to_set, NoDup_ListNoDup.
Qed.

End Coordinator.

(** C8, as stated, fails on a batch that names an identifier twice: the
    mapping has one entry for the two. *)
Lemma duplicate_asin_one_entry :
  ~ (forall completed m,
       Web.get_offer_info_scrape_parallel latin1 parse_none [asin1; asin1]
         worlds_down completed (Ok m) ->
       size m = length [asin1; asin1]).
Proof.
  intros H.
  set (futures := Web.submit_all latin1 parse_none [asin1; asin1] worlds_down).
  destruct (coordinator_dom latin1 parse_none [asin1; asin1] worlds_down futures
              (collect futures ∅)) as (m & Hm & Hdom).
  { split; [unfold as_completed|]; reflexivity. }
  specialize (H futures m). rewrite <- Hm in H.
  assert (Hsize : size m = 2)
    by (apply H; split; [unfold as_completed|]; reflexivity).
  rewrite <- size_dom, Hdom in Hsize.
  rewrite !list_to_set_cons, list_to_set_nil, (right_id_L ∅ (∪)) in Hsize.
  rewrite (idemp_L (∪)) in Hsize.
  rewrite size_singleton in Hsize. discriminate Hsize.
Qed.

(** Two identifiers whose tasks finish in the reverse order. *)
Lemma coordinator_two_asins :
  let futures := Web.submit_all latin1 parse_none [asin1; asin2] worlds_down in
  Web.get_offer_info_scrape_parallel latin1 parse_none [asin1; asin2] worlds_down
    (rev futures) (collect (rev futures) ∅)
  /\ exists m,
       collect (rev futures) ∅ = Ok m
       /\ (forall asin, is_Some (m !! asin) <-> In asin [asin1; asin2])
       /\ size m = length (remove_dups [asin1; asin2])
       /\ (List.NoDup [asin1; asin2] -> size m = length [asin1; asin2]).
Proof.
  intros futures.
  assert (H : Web.get_offer_info_scrape_parallel latin1 parse_none [asin1; asin2]
                worlds_down (rev futures) (collect (rev futures) ∅)).
  { split; [|reflexivity]. unfold as_completed. symmetry. apply Permutation_rev. }
  split; [exact H|].
  exact (coordinator_one_entry_per_asin latin1 parse_none [asin1; asin2] worlds_down
           (rev futures) (collect (rev futures) ∅) H).
Defined.

End Coordinator.

(** * Further properties *)

(** ** Substrings and operator names *)

Module OperatorNames.
Import Py Web Props PyFacts Validator.

Local Open Scope nat_scope.

Section OperatorNames.
Context (udb : UnicodeDB).

Lemma startswith_iff p : forall s,
  startswith p s = true <-> exists post, s = p ++ post.
Proof.
  induction p as [|a p IH]; intros s; cbn [startswith].
  - split; [intros _; now exists s|reflexivity].
  - destruct s as [|b s].
    + split; [discriminate|]. intros [post H]. discriminate H.
    + rewrite andb_true_iff, N.eqb_eq, IH. split.
      * intros [-> [post ->]]. now exists post.
      * intros [post H]. injection H as -> ->. eauto.
Qed.

(** [needle in hay] holds exactly when [hay] is some text, the needle,
    and some text. *)
Lemma contains_iff needle : forall hay,
  contains needle hay = true <-> exists pre post, hay = pre ++ needle ++ post.
Proof.
  induction hay as [|c hay IH]; cbn [contains]; rewrite orb_true_iff, startswith_iff.
  - split.
    + intros [[post H]|H]; [|discriminate]. now exists [], post.
    + intros (pre & post & H). left. destruct pre; [now exists post|discriminate].
  - rewrite IH. split.
    + intros [[post H]|(pre & post & ->)]; [now exists [], post|].
      now exists (c :: pre), post.
    + intros ([|x pre] & post & H); [left; now exists post|].
      right. injection H as -> ->. eauto.
Qed.

Lemma contains_prefix a b hay :
  contains (a ++ b) hay = true -> contains a hay = true.
Proof.
  rewrite !contains_iff. intros (pre & post & ->).
  exists pre, (b ++ post). now rewrite <- app_assoc.
Qed.

(** X1. A name is an operator name exactly when its lowered and trimmed
    text contains [amazon]: the three longer hints of
    [AMAZON_RETAIL_HINTS] all contain the first, and an empty name
    contains nothing. *)
Theorem is_amazon_name_amazon (name : str) :
  is_amazon_name udb name = contains (lit "amazon") (strip udb (lower udb name)).
Proof.
  unfold is_amazon_name. set (n := strip udb (lower udb name)).
  destruct n as [|c n]; [reflexivity|]. cbn [is_empty].
  unfold AMAZON_RETAIL_HINTS. cbn [existsb].
  destruct (contains (lit "amazon") (c :: n)) eqn:E; [reflexivity|].
  cbn [orb].
  assert (H : forall rest, contains (lit "amazon" ++ rest) (c :: n) = false).
  { intros rest. destruct (contains (lit "amazon" ++ rest) (c :: n)) eqn:E'; [|reflexivity].
    apply contains_prefix in E'. congruence. }
  change (lit "amazon.com.br") with (lit "amazon" ++ lit ".com.br").
  change (lit "amazon servi" ++ [231%N] ++ lit "os de varejo")
    with (lit "amazon" ++ lit " servi" ++ [231%N] ++ lit "os de varejo").
  change (lit "amazon servicos de varejo") with (lit "amazon" ++ lit " servicos de varejo").
  now rewrite !H.
Qed.

(** On ASCII text, lowering undoes upper-casing. *)
Lemma ascii_lower_upper c : ascii_lower (ascii_upper c) = ascii_lower c.
Proof.
  unfold ascii_lower, ascii_upper.
  destruct ((97 <=? c)%N && (c <=? 122)%N) eqn:E; [|reflexivity].
  apply andb_true_iff in E as [E1 E2].
  apply N.leb_le in E1. apply N.leb_le in E2.
  repeat match goal with
         | |- context [N.leb ?a ?b] => destruct (N.leb_spec a b)
         end; cbn [andb]; lia.
Qed.

Lemma is_ascii_upper s : is_ascii s = true -> is_ascii (List.map ascii_upper s) = true.
Proof.
  unfold is_ascii. induction s as [|c t IH]; [reflexivity|].
  cbn [List.map forallb]. rewrite !andb_true_iff. intros [Hc Ht].
  split; [|now apply IH].
  apply N.ltb_lt in Hc. apply N.ltb_lt. unfold ascii_upper.
  destruct ((97 <=? c)%N && (c <=? 122)%N); lia.
Qed.

Lemma lower_upper_ascii s : is_ascii s = true -> lower udb (upper udb s) = lower udb s.
Proof.
  intros H. unfold lower, upper. rewrite H, (is_ascii_upper s H).
  rewrite List.map_map. apply List.map_ext. intros c. apply ascii_lower_upper.
Qed.

(** X2. The block detector and the operator-name test ignore the case of
    the letters of an ASCII text: upper-casing the body, or the name,
    changes neither verdict. *)
Theorem ascii_case_ignored (resp : option Response) (text : str) :
  is_ascii text = true ->
  detect_soft_block udb resp (upper udb text) = detect_soft_block udb resp text
  /\ is_amazon_name udb (upper udb text) = is_amazon_name udb text.
Proof.
  intros H. unfold detect_soft_block, is_amazon_name.
  now rewrite (lower_upper_ascii text H).
Qed.

End OperatorNames.

(** A robot check in capitals is detected like the same page in lower
    case. *)
Lemma ascii_case_ignored_robot :
  is_ascii (lit "sorry, are you a robot?") = true
  /\ detect_soft_block latin1 (Some {| status_code := 200; text := [] |})
       (upper latin1 (lit "sorry, are you a robot?"))
     = detect_soft_block latin1 (Some {| status_code := 200; text := [] |})
         (lit "sorry, are you a robot?")
  /\ is_amazon_name latin1 (upper latin1 (lit "sorry, are you a robot?"))
     = is_amazon_name latin1 (lit "sorry, are you a robot?").
Proof.
  split; [reflexivity|].
  apply (ascii_case_ignored latin1 (Some {| status_code := 200; text := [] |})
           (lit "sorry, are you a robot?")).
  reflexivity.
Defined.

End OperatorNames.

(** ** Normalization of extracted text *)

Module Cleaning.
Import Py Web Props PyFacts Whitespace Samples.

Local Open Scope nat_scope.

Section Cleaning.
Context (udb : UnicodeDB).

Lemma split_from_word w : Forall (fun c => isspace udb c = false) w -> forall cur rest,
  split_from udb cur (w ++ rest) = split_from udb (rev w ++ cur) rest.
Proof.
  induction 1 as [|c w Hc Hw IH]; intros cur rest; [reflexivity|].
  cbn [app split_from rev]. rewrite Hc, IH. now rewrite <- app_assoc.
Qed.

(** Splitting words that were joined by single spaces gives the words
    back. *)
Lemma split_join words :
  Forall (word udb) words -> split udb (join [32%N] words) = words.
Proof.
  unfold split. induction 1 as [|w rest [Hne Hall] Hrest IH]; [reflexivity|].
  assert (Hflush : forall k, flush (rev w) k = w :: k).
  { intros k. unfold flush. destruct (rev w) eqn:E.
    - apply (f_equal (@rev _)) in E. rewrite rev_involutive in E. contradiction.
    - now rewrite <- E, rev_involutive. }
  destruct rest as [|w' rest].
  - cbn [join]. rewrite <- (app_nil_r w) at 1.
    rewrite (split_from_word w Hall), app_nil_r. cbn [split_from]. apply Hflush.
  - change (join [32%N] (w :: w' :: rest)) with (w ++ 32%N :: join [32%N] (w' :: rest)).
    rewrite (split_from_word w Hall), app_nil_r. cbn [split_from].
    change (isspace udb 32%N) with true. cbv iota.
    now rewrite Hflush, IH.
Qed.

(** X3. [normalize_spaces] is idempotent, and what it returns has no
    whitespace at either end and only single spaces between its words:
    it is left alone by [strip] and by the replacement of runs of
    whitespace. *)
Theorem normalize_spaces_idempotent (s : str) :
  normalize_spaces udb (normalize_spaces udb s) = normalize_spaces udb s
  /\ strip udb (normalize_spaces udb s) = normalize_spaces udb s
  /\ re_sub_ws udb false (normalize_spaces udb s) = normalize_spaces udb s.
Proof.
  destruct (normalize_spaces_join udb s) as [Hj Hn].
  split; [|split].
  - destruct Hn as (words & Hwords & Hw).
    destruct (normalize_spaces_join udb (normalize_spaces udb s)) as [-> _].
    rewrite Hw. now rewrite split_join.
  - now apply ws_normalized_strip.
  - destruct Hn as (words & Hwords & ->). now apply re_sub_ws_join.
Qed.

(** X4. [clean] returns the sentinel for a text without words and
    otherwise the first 80 characters of the normalized text: the second
    normalization that it runs changes nothing. *)
Theorem clean_first_80 (raw : str) :
  clean udb raw =
    match normalize_spaces udb raw with
    | [] => SEM_OFERTA
    | c :: t => firstn 80 (c :: t)
    end.
Proof.
  destruct (clean_cut udb raw) as [[E ->]|[Hne ->]].
  - now rewrite E.
  - destruct (normalize_spaces udb raw); [contradiction|reflexivity].
Qed.

Lemma clean_sentinel : clean udb SEM_OFERTA = SEM_OFERTA.
Proof. reflexivity. Qed.

(** X5. Cleaning twice is cleaning once, for a text whose normalized form
    has at most 80 characters. *)
Theorem clean_idempotent_short (raw : str) :
  length (normalize_spaces udb raw) <= 80 ->
  clean udb (clean udb raw) = clean udb raw.
Proof.
  intros Hlen. destruct (normalize_spaces_join udb raw) as [_ Hn].
  destruct (clean_cut udb raw) as [[_ ->]|[Hne Hraw]]; [apply clean_sentinel|].
  rewrite firstn_all2 in Hraw by exact Hlen. rewrite Hraw.
  destruct (clean_cut udb (normalize_spaces udb raw)) as [[E _]|[_ ->]].
  - destruct Hn as (words & Hwords & Hw).
    destruct (normalize_spaces_join udb (normalize_spaces udb raw)) as [Hj _].
    rewrite Hj, Hw, split_join, <- Hw in E by exact Hwords. contradiction.
  - destruct Hn as (words & Hwords & Hw).
    destruct (normalize_spaces_join udb (normalize_spaces udb raw)) as [-> _].
    rewrite Hw, split_join, <- Hw by exact Hwords. now apply firstn_all2.
Qed.

End Cleaning.

Lemma clean_idempotent_loja :
  length (normalize_spaces latin1 (lit "  Loja   XYZ ")) <= 80
  /\ clean latin1 (clean latin1 (lit "  Loja   XYZ ")) = clean latin1 (lit "  Loja   XYZ ").
Proof.
  split; [vm_compute; lia|].
  apply (clean_idempotent_short latin1 (lit "  Loja   XYZ ")). vm_compute. lia.
Defined.

(** A name cut after a word loses its last space when cleaned again. *)
Example clean_not_idempotent :
  clean latin1 (clean latin1 long_name) <> clean latin1 long_name.
Proof. vm_compute. discriminate. Qed.

End Cleaning.

(** ** What the extractor returns *)

Module Offers.
Import Py Web Props PyFacts Whitespace Extractor Samples.

Local Open Scope nat_scope.

Section Offers.
Context (udb : UnicodeDB).

Abbreviation extract := (extract_sold_shipped_from_dp udb).

Lemma scan_seller_links_not_amazon links name :
  scan_seller_links udb links = ScanName name -> is_amazon_name udb name = false.
Proof.
  induction links as [|link rest IH]; cbn [scan_seller_links]; [discriminate|].
  destruct (negb (eqb (clean udb link) SEM_OFERTA)
            && (length (split udb (clean udb link)) <=? 6)); [|exact IH].
  destruct (is_amazon_name udb (clean udb link)) eqn:E; [discriminate|].
  now intros [= <-].
Qed.

(** The pairs of the extractor, with what decides the shipper: a seller
    other than the operator ships itself under the combined label, and
    otherwise the operator ships when the page has a shipping signal. *)
Lemma extract_cases soup :
  extract soup = (SEM_OFERTA, SEM_OFERTA)
  \/ extract soup = (AMAZON, AMAZON)
  \/ exists name, resolved udb name /\ is_amazon_name udb name = false
       /\ ((extract soup = (name, name)
            /\ (~ shipping_signal udb soup
                \/ (name = pick_merchant_text udb (text_el soup)
                    /\ combined_label udb soup)))
           \/ (extract soup = (name, AMAZON) /\ shipping_signal udb soup)).
Proof.
  unfold extract_sold_shipped_from_dp, merchant_block, combined_label, label_text.
  set (label_txt := match label_el soup with Some t => _ | None => _ end).
  set (m := pick_merchant_text udb (text_el soup)).
  assert (Hm : m <> SEM_OFERTA -> resolved udb m) by apply pick_merchant_text_resolved.
  clearbody m label_txt.
  assert (Hopen : forall name, name <> SEM_OFERTA ->
            (finish name (resolve_shipper udb soup name SEM_OFERTA) = (name, name)
             /\ ~ shipping_signal udb soup)
            \/ (finish name (resolve_shipper udb soup name SEM_OFERTA) = (name, AMAZON)
                /\ shipping_signal udb soup)).
  { intros name Hne. apply eqb_neq in Hne.
    unfold resolve_shipper, finish, shipping_signal. rewrite Hne, eqb_refl.
    cbn [negb andb].
    destruct (contains (lit "enviado por amazon") (lower udb (page_text soup)));
      [right; auto|].
    destruct (contains (lit "ships from amazon") (lower udb (page_text soup)));
      [right; auto|].
    destruct (prime_hint soup); [right; auto|]. cbn [orb].
    left. split; [reflexivity|]. intros [H|[H|H]]; discriminate H. }
  destruct (eqb m SEM_OFERTA) eqn:Em; cbn [negb].
  - unfold fallback_seller. rewrite eqb_refl.
    destruct (scan_seller_links udb (seller_links soup)) as [|name|] eqn:Escan.
    + now right; left.
    + pose proof (scan_seller_links_not_amazon _ _ Escan) as Hna.
      apply scan_seller_links_resolved in Escan.
      right; right. exists name. split; [exact Escan|]. split; [exact Hna|].
      destruct (Hopen name (proj1 Escan)) as [[E Hs]|[E Hs]]; [left|right]; auto.
    + left. reflexivity.
  - destruct (is_amazon_name udb m) eqn:Eam; [now right; left|].
    apply eqb_neq in Em. specialize (Hm Em).
    right; right. exists m. split; [exact Hm|]. split; [exact Eam|].
    destruct (contains (lit "enviado / vendido") label_txt
              || contains (lit "shipped from and sold by") label_txt) eqn:Elab;
      unfold fallback_seller; rewrite (proj2 (eqb_neq m SEM_OFERTA) Em).
    + left. split.
      * unfold resolve_shipper, finish.
        rewrite (proj2 (eqb_neq m SEM_OFERTA) Em). reflexivity.
      * right. split; [reflexivity|]. now apply orb_true_iff in Elab.
    + destruct (Hopen m Em) as [[E Hs]|[E Hs]]; [left|right]; auto.
Qed.

(** X6. The extractor reports the operator in one way only: the seller it
    returns is an operator name exactly when it returns
    [(Amazon, Amazon)], and that is exactly when the pair is classified
    [Amazon FO]. *)
Theorem operator_reported_canonically (soup : Soup) :
  (is_amazon_name udb (fst (extract soup)) = true <-> extract soup = (AMAZON, AMAZON))
  /\ (classify udb (fst (extract soup)) (snd (extract soup)) = AMAZON_FO
      <-> extract soup = (AMAZON, AMAZON)).
Proof.
  assert (H1 : is_amazon_name udb (fst (extract soup)) = true <->
               extract soup = (AMAZON, AMAZON)).
  { split.
    - intros H.
      destruct (extract_cases soup)
        as [E|[E|(name & _ & Hna & [[E _]|[E _]])]]; rewrite E in H |- *;
        cbn [fst] in H; try reflexivity; try congruence.
      rewrite sentinel_not_amazon in H. discriminate H.
    - intros ->. reflexivity. }
  split; [exact H1|]. split.
  - intros H. apply H1. unfold classify in H.
    destruct (eqb _ SEM_OFERTA && eqb _ SEM_OFERTA); [discriminate H|].
    destruct (is_amazon_name udb (fst (extract soup))); [reflexivity|].
    discriminate H.
  - intros ->. reflexivity.
Qed.

(** X7. On a page without a shipping signal (neither of the two phrases
    in its text, no Prime badge), the shipper that the extractor returns
    is the seller: the operator is never made the shipper by default. *)
Theorem shipper_defaults_to_seller (soup : Soup) :
  ~ shipping_signal udb soup ->
  snd (extract soup) = fst (extract soup).
Proof.
  intros Hno.
  destruct (extract_cases soup)
    as [E|[E|(name & _ & _ & [[E _]|[E Hs]])]];
    [now rewrite E|now rewrite E|now rewrite E|contradiction].
Qed.

(** X8. Under the combined label ([Enviado / Vendido], or
    [Shipped from and sold by]) a merchant that is not the operator is
    returned as seller and as shipper, whatever the page text and the
    Prime badge say. *)
Theorem combined_label_self_ships (soup : Soup) :
  combined_label udb soup ->
  pick_merchant_text udb (text_el soup) <> SEM_OFERTA ->
  is_amazon_name udb (pick_merchant_text udb (text_el soup)) = false ->
  extract soup = (pick_merchant_text udb (text_el soup),
                  pick_merchant_text udb (text_el soup)).
Proof.
  intros Hlab Hne Hna.
  unfold extract_sold_shipped_from_dp, merchant_block.
  unfold combined_label, label_text in Hlab.
  apply eqb_neq in Hne. rewrite Hne, Hna. cbn [negb].
  apply orb_true_iff in Hlab. rewrite Hlab.
  unfold fallback_seller, resolve_shipper, finish. cbv beta iota zeta.
  rewrite !Hne. reflexivity.
Qed.

End Offers.

(** A page without any shipping signal. *)
Lemma shipper_defaults_to_seller_long :
  ~ shipping_signal latin1 soup_long
  /\ snd (extract_sold_shipped_from_dp latin1 soup_long)
     = fst (extract_sold_shipped_from_dp latin1 soup_long).
Proof.
  assert (H : ~ shipping_signal latin1 soup_long).
  { intros [H|[H|H]]; vm_compute in H; discriminate H. }
  split; [exact H|]. exact (shipper_defaults_to_seller latin1 soup_long H).
Defined.

(** [Loja XYZ] under [Enviado / Vendido por], on a page with a Prime
    badge. *)
Lemma combined_label_self_ships_loja :
  combined_label latin1 soup_loja
  /\ extract_sold_shipped_from_dp latin1 soup_loja = (lit "Loja XYZ", lit "Loja XYZ").
Proof.
  assert (H : combined_label latin1 soup_loja) by (left; reflexivity).
  split; [exact H|].
  apply (combined_label_self_ships latin1 soup_loja H).
  - vm_compute. discriminate.
  - reflexivity.
Defined.

End Offers.

(** ** Runs of the recovery loop *)

Module Runs.
Import Py Web Props PyFacts FetchCycle RecoveryLoop Extractor Offers Samples.

Local Open Scope nat_scope.

Section Runs.
Context (udb : UnicodeDB) (parse_html : str -> Soup).

Abbreviation scrape_cycles := (Web.scrape_cycles udb parse_html).
Abbreviation scrape_one_asin := (Web.scrape_one_asin udb parse_html).

Abbreviation Turn := (Props.Turn udb parse_html).

Lemma turn asin url cycle rest w : Turn asin url cycle rest w.
Proof.
  destruct (fetch_cycle_ok udb url cycle w) as (fetched & w1 & Hfetch).
  assert (Hfails : cycle_fails udb fetched -> Turn asin url cycle rest w).
  { intros Hf. destruct (lt_dec cycle MAX_BLOCKED_CYCLES) as [Hc|Hc].
    - eapply TurnRetry; eauto. now apply scrape_cycles_retry.
    - eapply TurnGiveUp; eauto. now apply scrape_cycles_give_up with (fetched := fetched). }
  destruct fetched as [[r|] html]; [|now apply Hfails].
  destruct html as [|c html]; [apply Hfails; now left|].
  destruct (detect_soft_block udb (Some r) (c :: html)) eqn:Hb;
    [apply Hfails; now right|].
  assert (Hok : ~ cycle_fails udb (Some r, c :: html)).
  { intros [H|H]; [discriminate H|congruence]. }
  destruct (Z.eq_dec (status_code r) 200) as [Hst|Hst].
  - eapply TurnParsed; eauto.
    now apply (scrape_cycles_success udb parse_html asin url cycle rest w r (c :: html) w1).
  - eapply TurnNot200; eauto.
    now apply (scrape_cycles_not_200 udb parse_html asin url cycle rest w r (c :: html) w1).
Qed.

Lemma classify_not_reprocess vendido enviado :
  classify udb vendido enviado <> REPROCESSAR.
Proof.
  unfold classify. destruct (_ && _); [discriminate|].
  destruct (_ && _); discriminate.
Qed.

(** A run that ends in the status [REPROCESSAR] has seen every cycle
    fail. *)
Lemma reprocess_all_failed asin url last : forall pre w vendido enviado w',
  Forall (fun cycle => cycle < MAX_BLOCKED_CYCLES) pre ->
  scrape_cycles asin url (pre ++ [last]) w = (Ok (asin, vendido, enviado, REPROCESSAR), w') ->
  every_cycle_fails udb url (pre ++ [last]) w.
Proof.
  induction pre as [|cycle pre IH]; intros w v e w' Hpre Hrun.
  - cbn [app] in *. cbn [every_cycle_fails].
    destruct (turn asin url last [] w) as [f w1 Hf Hfail _ _|f w1 Hf Hfail _ _
                                          |r html w1 Hf _ Heq|r html w1 Hf _ Heq].
    + rewrite Hf. auto.
    + rewrite Hf. auto.
    + rewrite Heq in Hrun. discriminate Hrun.
    + rewrite Heq in Hrun. injection Hrun as _ _ Hst _.
      now apply classify_not_reprocess in Hst.
  - inversion Hpre as [|? ? Hc Hpre']; subst.
    cbn [app] in *. cbn [every_cycle_fails].
    destruct (turn asin url cycle (pre ++ [last]) w)
      as [f w1 Hf Hfail _ Heq|f w1 Hf Hfail Hnc _
         |r html w1 Hf _ Heq|r html w1 Hf _ Heq].
    + rewrite Hf. split; [exact Hfail|].
      rewrite Heq in Hrun. now apply (IH _ v e w').
    + contradiction.
    + rewrite Heq in Hrun. discriminate Hrun.
    + rewrite Heq in Hrun. injection Hrun as _ _ Hst _.
      now apply classify_not_reprocess in Hst.
Qed.

(** X9. An identifier is given the status [REPROCESSAR] exactly when all
    the cycles of its run, from cycle 0 to the cycle limit, fail: one
    cycle that fetches a usable page is enough for a verdict. *)
Theorem reprocess_iff_all_cycles_fail (asin : str) (w : World) :
  (exists vendido enviado w',
     scrape_one_asin asin w = (Ok (asin, vendido, enviado, REPROCESSAR), w'))
  <-> every_cycle_fails udb (dp_url asin) (seq 0 (MAX_BLOCKED_CYCLES + 1)) w.
Proof.
  split.
  - intros (v & e & w' & Hrun). unfold Web.scrape_one_asin in Hrun. cbv zeta in Hrun.
    replace (MAX_BLOCKED_CYCLES + 1) with (S MAX_BLOCKED_CYCLES) in * by lia.
    rewrite seq_S in *. cbn [plus] in *.
    apply (reprocess_all_failed asin (dp_url asin) MAX_BLOCKED_CYCLES _ w v e w');
      [|exact Hrun].
    apply Forall_forall. intros c Hin. apply in_seq in Hin. lia.
  - intros Hfail.
    destruct (scrape_cycles_all_fail udb parse_html asin (dp_url asin) _ w Hfail)
      as (w' & Hrun).
    exists REPROCESSAR_LABEL, REPROCESSAR_LABEL, w'. exact Hrun.
Qed.

(** A cycle issues at least one request and at most
    [SAFEGET_RETRIES_PER_CYCLE + 1]. *)
Lemma fetch_cycle_requests url cycle w fetched w1 :
  fetch_cycle udb url cycle w = (Ok fetched, w1) ->
  issued w < issued w1 <= issued w + (SAFEGET_RETRIES_PER_CYCLE + 1)
  /\ net w1 = net w.
Proof.
  unfold fetch_cycle, mbind, M_bind.
  destruct (get_session_ok (0 <? cycle) w) as (s & w0 & -> & Hnet0 & Hiss0).
  unfold safe_get.
  destruct (safe_get_loop_spec udb s url REQUEST_TIMEOUT
              (seq 0 (SAFEGET_RETRIES_PER_CYCLE + 1)) (None, []) w0)
    as (result & w1' & -> & Hnet & _ & _ & Hcase).
  intros [= _ <-]. rewrite length_seq in Hcase. rewrite Hnet, Hnet0, <- Hiss0.
  split; [|reflexivity].
  destruct Hcase as [(n & Hn & _ & _ & _ & ->)|(_ & -> & _)]; lia.
Qed.

Lemma after_failure_issued cycle fetched w :
  issued (after_failure cycle fetched w) = issued w.
Proof. destruct fetched as [[r|] [|c html]]; reflexivity. Qed.

Lemma scrape_cycles_requests asin url cycles : forall w,
  let w' := snd (scrape_cycles asin url cycles w) in
  issued w <= issued w' <= issued w + length cycles * (SAFEGET_RETRIES_PER_CYCLE + 1)
  /\ (cycles <> [] -> issued w < issued w')
  /\ net w' = net w.
Proof.
  induction cycles as [|cycle rest IH]; intros w; cbv zeta.
  - cbn. split; [lia|]. split; [congruence|reflexivity].
  - cbn [length].
    destruct (turn asin url cycle rest w)
      as [f w1 Hf _ _ Heq|f w1 Hf _ _ Heq|r html w1 Hf _ Heq|r html w1 Hf _ Heq];
      rewrite Heq; destruct (fetch_cycle_requests _ _ _ _ _ Hf) as [Hiss Hnet].
    + specialize (IH (after_failure cycle f w1)). cbv zeta in IH.
      rewrite after_failure_issued, after_failure_net in IH.
      destruct IH as (Hb & _ & Hn). rewrite Hn, Hnet.
      split; [lia|]. split; [intros _; lia|reflexivity].
    + cbn [snd]. split; [lia|]. split; [intros _; lia|exact Hnet].
    + cbn [snd]. split; [lia|]. split; [intros _; lia|exact Hnet].
    + cbn [snd sleep issued net]. split; [lia|]. split; [intros _; lia|exact Hnet].
Qed.

(** X10. A run of [scrape_one_asin] issues at least one request and at
    most (MAX_BLOCKED_CYCLES + 1) * (SAFEGET_RETRIES_PER_CYCLE + 1) = 12,
    whatever the network answers. *)
Theorem scrape_one_asin_request_budget (asin : str) (w : World) :
  let w' := snd (scrape_one_asin asin w) in
  issued w + 1 <= issued w'
  /\ issued w' <= issued w + (MAX_BLOCKED_CYCLES + 1) * (SAFEGET_RETRIES_PER_CYCLE + 1)
  /\ issued w' <= issued w + 12.
Proof.
  cbv zeta. unfold Web.scrape_one_asin. cbv zeta.
  pose proof (scrape_cycles_requests asin (dp_url asin)
                (seq 0 (MAX_BLOCKED_CYCLES + 1)) w) as H.
  cbv zeta in H. rewrite length_seq in H. destruct H as (Hb & Hpos & _).
  assert (Hne : seq 0 (MAX_BLOCKED_CYCLES + 1) <> []) by discriminate.
  specialize (Hpos Hne).
  unfold MAX_BLOCKED_CYCLES, SAFEGET_RETRIES_PER_CYCLE in *. lia.
Qed.

(** The shape of a record whose names the extractor produced. *)
Lemma extracted_record_shape asin soup :
  record_shape udb
    (asin, fst (extract_sold_shipped_from_dp udb soup),
     snd (extract_sold_shipped_from_dp udb soup),
     classify udb (fst (extract_sold_shipped_from_dp udb soup))
                  (snd (extract_sold_shipped_from_dp udb soup))).
Proof.
  unfold record_shape.
  destruct (extract_cases udb soup)
    as [E|[E|(name & Hres & Hna & [[E _]|[E _]])]]; rewrite E; cbn [fst snd].
  - right; left. auto.
  - right; right; left. auto.
  - right; right; right.
    split; [exact Hres|]. split; [exact Hna|]. split; [now left|].
    unfold classify. destruct Hres as [Hne _]. apply eqb_neq in Hne.
    now rewrite Hne, Hna.
  - right; right; right.
    split; [exact Hres|]. split; [exact Hna|]. split; [now right|].
    unfold classify. destruct Hres as [Hne _]. apply eqb_neq in Hne.
    now rewrite Hne, Hna.
Qed.

Lemma scrape_cycles_shape asin url cycles : forall w,
  exists rec w', scrape_cycles asin url cycles w = (Ok rec, w')
                 /\ record_shape udb rec /\ fst (fst (fst rec)) = asin.
Proof.
  induction cycles as [|cycle rest IH]; intros w.
  - exists (reprocess asin), w. split; [reflexivity|]. split; [left; auto|reflexivity].
  - destruct (turn asin url cycle rest w)
      as [f w1 _ _ _ Heq|f w1 _ _ _ Heq|r html w1 _ _ Heq|r html w1 _ _ Heq];
      rewrite Heq.
    + apply IH.
    + eexists _, _. split; [reflexivity|]. split; [left; auto|reflexivity].
    + eexists _, _. split; [reflexivity|]. split; [right; left; auto|reflexivity].
    + eexists _, _. split; [reflexivity|].
      split; [apply extracted_record_shape|reflexivity].
Qed.

(** X11. Every record that [scrape_one_asin] returns is of one of four
    kinds: the reprocessing record; all three fields [Sem Oferta]; seller
    and shipper [Amazon] with status [Amazon FO]; or status [LFO] with a
    cleaned seller name that is neither the sentinel nor an operator name
    and a shipper that is this seller or [Amazon].  It never raises, and
    the record carries the identifier it was called with. *)
Theorem scrape_one_asin_record_shape (asin : str) (w : World) :
  exists rec w',
    scrape_one_asin asin w = (Ok rec, w')
    /\ record_shape udb rec
    /\ fst (fst (fst rec)) = asin.
Proof. apply scrape_cycles_shape. Qed.

End Runs.
End Runs.

(** ** What a fetch leaves in the log *)

Module Traces.
Import Py Web Props PyFacts FetchCycle RecoveryLoop Samples.

Local Open Scope nat_scope.

Section Traces.
Context (udb : UnicodeDB).

Lemma passes_observed o :
  passes udb o = negb (detect_soft_block udb (fst (observed o)) (snd (observed o))).
Proof. destruct o as [|resp]; reflexivity. Qed.

Lemma observed_html o : snd (observed o) = html_of (fst (observed o)).
Proof. destruct o as [|resp]; reflexivity. Qed.

Lemma count_events_app p l1 l2 :
  count_events p (l1 ++ l2) = count_events p l1 + count_events p l2.
Proof. unfold count_events. now rewrite List.filter_app, length_app. Qed.

(** The log of a run of the loop of [safe_get]. *)
Lemma safe_get_loop_trace s url timeout attempts : forall last w,
  detect_soft_block udb (fst last) (snd last) = true ->
  snd last = html_of (fst last) ->
  exists result w' evs,
    safe_get_loop udb s url timeout attempts last w = (Ok result, w')
    /\ log w' = evs ++ log w
    /\ Forall (fetch_event s url timeout) evs
    /\ count_events is_get evs = issued w' - issued w
    /\ count_events is_sleep evs
       + (if detect_soft_block udb (fst result) (snd result) then 0 else 1)
       = count_events is_get evs
    /\ snd result = html_of (fst result).
Proof.
  induction attempts as [|attempt rest IH]; intros last w Hlast Hhtml.
  - exists last, w, []. rewrite Hlast. cbn. repeat split; auto. lia.
  - rewrite safe_get_loop_step. cbv zeta. rewrite session_get_world.
    pose proof (passes_observed (net w (issued w))) as Hp.
    destruct (passes udb (net w (issued w))).
    + apply (f_equal negb) in Hp. rewrite negb_involutive in Hp. cbn [negb] in Hp.
      eexists _, _, [EvGet s url timeout]. split; [reflexivity|].
      rewrite <- Hp. cbn [log issued app].
      split; [reflexivity|]. split; [repeat constructor|].
      split; [cbn; lia|]. split; [reflexivity|apply observed_html].
    + apply (f_equal negb) in Hp. rewrite negb_involutive in Hp. cbn [negb] in Hp.
      set (w2 := snd (sleep _ _ _)).
      destruct (IH (observed (net w (issued w))) w2 (eq_sym Hp) (observed_html _))
        as (result & w' & evs & Hrun & Hlog & Hall & Hgets & Hsleeps & Hres).
      assert (Hiss : issued w2 = S (issued w)) by reflexivity.
      pose proof (safe_get_loop_spec udb s url timeout rest
                    (observed (net w (issued w))) w2) as Hspec.
      destruct Hspec as (result' & w'' & Hrun' & _ & _ & _ & Hcase).
      rewrite Hrun in Hrun'. injection Hrun' as <- <-.
      assert (Hle : issued w2 <= issued w').
      { destruct Hcase as [(n & _ & _ & _ & _ & ->)|(_ & -> & _)]; lia. }
      exists result, w',
        (evs ++ [EvSleep ((7 # 10) + inject_Z (Z.of_nat attempt) * (11 # 10))%Q (6 # 10)%Q;
                 EvGet s url timeout]).
      split; [exact Hrun|]. split; [now rewrite Hlog, <- app_assoc|].
      split.
      { apply Forall_app. split; [exact Hall|].
        constructor; [now right|]. constructor; [now left|constructor]. }
      rewrite !count_events_app. cbn [count_events List.filter is_get is_sleep length].
      split; [lia|]. split; [lia|exact Hres].
Qed.

(** X12. [safe_get] leaves in the log only requests, made with the
    session, address and timeout it was given, and sleeps: one request
    for each request issued, and one sleep after every request that did
    not get through, the last one included.  The body it returns is the
    text of the response it returns (empty when there is none), and the
    pair it returns is blocked exactly when no request got through. *)
Theorem safe_get_trace s url timeout max_retries w :
  exists result w' evs,
    safe_get udb s url timeout max_retries w = (Ok result, w')
    /\ log w' = evs ++ log w
    /\ Forall (fetch_event s url timeout) evs
    /\ count_events is_get evs = issued w' - issued w
    /\ count_events is_sleep evs
       + (if detect_soft_block udb (fst result) (snd result) then 0 else 1)
       = count_events is_get evs
    /\ snd result = html_of (fst result)
    /\ (detect_soft_block udb (fst result) (snd result) = false <->
        exists n, n <= max_retries /\ passes udb (net w (issued w + n)) = true).
Proof.
  unfold safe_get.
  destruct (safe_get_loop_trace s url timeout (seq 0 (max_retries + 1)) (None, []) w
              eq_refl eq_refl)
    as (result & w' & evs & Hrun & Hlog & Hall & Hgets & Hsleeps & Hres).
  exists result, w', evs. do 6 (split; [assumption|]).
  destruct (safe_get_loop_spec udb s url timeout (seq 0 (max_retries + 1)) (None, []) w)
    as (result' & w'' & Hrun' & _ & _ & _ & Hcase).
  rewrite Hrun in Hrun'. injection Hrun' as <- <-.
  rewrite length_seq in Hcase.
  destruct Hcase as [(n & Hn & Hpass & _ & -> & _)|(Hall' & _ & Hlast)].
  - rewrite passes_observed in Hpass. apply negb_true_iff in Hpass.
    split; [intros _|intros _; exact Hpass].
    exists n. split; [lia|]. rewrite passes_observed. now rewrite Hpass.
  - replace (max_retries + 1) with (S max_retries) in Hlast by lia. cbn [seq] in Hlast.
    assert (Hblocked : detect_soft_block udb (fst result) (snd result) = true).
    { rewrite Hlast.
      pose proof (Hall' max_retries ltac:(lia)) as Hp.
      rewrite passes_observed in Hp. apply negb_false_iff in Hp.
      replace (issued w + S max_retries - 1) with (issued w + max_retries) by lia.
      exact Hp. }
    rewrite Hblocked. split; [discriminate|].
    intros (n & Hn & Hp). rewrite Hall' in Hp by lia. discriminate Hp.
Qed.

(** X13. Every cycle after the first opens a new session before its
    first request, as does a first cycle on a thread that has none, and
    makes all its requests with it; a first cycle on a thread that has a
    session makes its requests with that session and opens none. *)
Theorem fetch_cycle_session url cycle w :
  exists fetched w1 evs,
    fetch_cycle udb url cycle w = (Ok fetched, w1)
    /\ ((0 < cycle \/ session w = None) ->
        log w1 = evs ++ EvNewSession (next_session w) :: log w
        /\ Forall (fetch_event (next_session w) url REQUEST_TIMEOUT) evs
        /\ session w1 = Some (next_session w)
        /\ next_session w1 = S (next_session w))
    /\ (forall s, cycle = 0 -> session w = Some s ->
        log w1 = evs ++ log w
        /\ Forall (fetch_event s url REQUEST_TIMEOUT) evs
        /\ session w1 = Some s
        /\ next_session w1 = next_session w).
Proof.
  unfold fetch_cycle, mbind, M_bind, get_session.
  destruct (if 0 <? cycle then None else session w) as [s|] eqn:Es.
  - unfold safe_get.
    destruct (safe_get_loop_trace s url REQUEST_TIMEOUT
                (seq 0 (SAFEGET_RETRIES_PER_CYCLE + 1)) (None, []) w eq_refl eq_refl)
      as (result & w' & evs & Hrun & Hlog & Hall & _).
    fold (safe_get udb s url REQUEST_TIMEOUT SAFEGET_RETRIES_PER_CYCLE w) in Hrun |- *.
    destruct (safe_get_frame udb s url REQUEST_TIMEOUT SAFEGET_RETRIES_PER_CYCLE w)
      as (_ & Hs & Hns).
    rewrite Hrun in Hs, Hns |- *. cbn [snd] in Hs, Hns.
    exists result, w', evs. split; [reflexivity|].
    destruct (0 <? cycle) eqn:Ec; [discriminate Es|].
    apply Nat.ltb_ge in Ec. split.
    + intros [Hc|Hnone]; [lia|congruence].
    + intros s' _ Hs'. rewrite Hs, Hns, Es in *. injection Hs' as <-. auto.
  - set (w0 := {| net := net w; issued := issued w; session := Some (next_session w);
                  next_session := S (next_session w);
                  log := EvNewSession (next_session w) :: log w |}).
    unfold safe_get.
    destruct (safe_get_loop_trace (next_session w) url REQUEST_TIMEOUT
                (seq 0 (SAFEGET_RETRIES_PER_CYCLE + 1)) (None, []) w0 eq_refl eq_refl)
      as (result & w' & evs & Hrun & Hlog & Hall & _).
    fold (safe_get udb (next_session w) url REQUEST_TIMEOUT SAFEGET_RETRIES_PER_CYCLE w0)
      in Hrun |- *.
    destruct (safe_get_frame udb (next_session w) url REQUEST_TIMEOUT
                SAFEGET_RETRIES_PER_CYCLE w0) as (_ & Hs & Hns).
    rewrite Hrun in Hs, Hns |- *. cbn [snd] in Hs, Hns.
    exists result, w', evs. split; [reflexivity|]. split.
    + intros _. auto.
    + intros s' Hc Hs'. subst cycle. cbn in Es. congruence.
Qed.

End Traces.
End Traces.

(** ** Well-formed identifiers *)

Module Identifiers.
Import Py Web Props PyFacts Whitespace Validator OperatorNames Samples.

Local Open Scope nat_scope.

Section Identifiers.
Context (udb : UnicodeDB).

Lemma is_ascii_app a b : is_ascii (a ++ b) = is_ascii a && is_ascii b.
Proof. unfold is_ascii. apply List.forallb_app. Qed.

Lemma is_ascii_replace_comma s : is_ascii s = true -> is_ascii (replace_comma s) = true.
Proof.
  unfold is_ascii, replace_comma. induction s as [|c t IH]; [reflexivity|].
  cbn [List.map forallb]. rewrite !andb_true_iff. intros [Hc Ht].
  split; [|now apply IH]. destruct (c =? 44)%N; [reflexivity|exact Hc].
Qed.

(** The pieces of an ASCII text are ASCII. *)
Lemma re_split_ws_ascii s : forall cur in_run,
  is_ascii cur = true -> is_ascii s = true ->
  Forall (fun t => is_ascii t = true) (re_split_ws udb cur in_run s).
Proof.
  induction s as [|c t IH]; intros cur in_run Hcur Hs; cbn [re_split_ws].
  - constructor; [|constructor]. now rewrite is_ascii_rev.
  - cbn in Hs. apply andb_true_iff in Hs as [Hc Ht].
    destruct (isspace udb c).
    + destruct in_run; [now apply IH|].
      constructor; [now rewrite is_ascii_rev|now apply IH].
    + apply IH; [|exact Ht]. cbn. now rewrite Hc.
Qed.

(** An upper-cased ASCII character that is alphanumeric is a digit or a
    capital letter. *)
Lemma ascii_upper_alnum c :
  (c <? 128)%N = true -> isalnum_char udb (ascii_upper c) = true ->
  ((48 <= ascii_upper c <= 57) \/ (65 <= ascii_upper c <= 90))%N.
Proof.
  intros Hc. apply N.ltb_lt in Hc. unfold isalnum_char, ascii_isalnum, ascii_upper.
  destruct ((97 <=? c)%N && (c <=? 122)%N) eqn:E.
  - apply andb_true_iff in E as [E1 E2].
    apply N.leb_le in E1. apply N.leb_le in E2. intros _. right. lia.
  - apply andb_false_iff in E.
    destruct (N.ltb_spec c 128) as [Hlt|Hge]; [|lia].
    rewrite !orb_true_iff, !andb_true_iff, !N.leb_le.
    intros [[H|H]|[H1 H2]]; [left; lia|right; lia|].
    destruct E as [E|E]; [apply N.leb_gt in E|apply N.leb_gt in E]; lia.
Qed.

(** X14. From an ASCII text the validator lets in only texts of exactly
    ten characters, each a digit or a capital letter: no lower-case
    letter, space or comma reaches the coordinator. *)
Theorem valid_asins_ascii_shape (asin_text : str) :
  is_ascii asin_text = true ->
  forall x, In x (valid_asins udb asin_text) ->
    length x = 10
    /\ Forall (fun c => (48 <= c <= 57) \/ (65 <= c <= 90))%N x.
Proof.
  intros Hascii x Hx. unfold valid_asins in Hx.
  apply filter_In in Hx as [Hx Hvalid].
  apply in_map_iff in Hx as (t & <- & Ht). apply filter_In in Ht as [Ht _].
  assert (Htok : is_ascii t = true).
  { pose proof (re_split_ws_ascii (replace_comma asin_text) [] false eq_refl
                  (is_ascii_replace_comma _ Hascii)) as Hall.
    rewrite Forall_forall in Hall. now apply Hall. }
  pose proof (is_ascii_strip udb t Htok) as Hstrip.
  apply is_valid_asin_iff in Hvalid. unfold upper in *. rewrite Hstrip in *.
  rewrite strip_ascii_upper, strip_idem in Hvalid. destruct Hvalid as [Hlen Halnum].
  split; [exact Hlen|].
  set (u := strip udb t) in *. clearbody u. clear Hlen.
  assert (Hall : forallb (isalnum_char udb) (List.map ascii_upper u) = true).
  { unfold isalnum in Halnum. destruct (List.map ascii_upper u); [discriminate|exact Halnum]. }
  clear Halnum. induction u as [|c u IH]; [constructor|].
  cbn [List.map forallb] in Hall. apply andb_true_iff in Hall as [Hc Hu].
  cbn in Hstrip. apply andb_true_iff in Hstrip as [Hc128 Hu128].
  cbn [List.map]. constructor; [now apply ascii_upper_alnum|now apply IH].
Qed.

End Identifiers.

(** Lower-case identifiers separated by a comma and a line break. *)
Lemma valid_asins_ascii_sample :
  is_ascii (lit "b000000001, b000000002") = true
  /\ forall x, In x (valid_asins latin1 (lit "b000000001, b000000002")) ->
       length x = 10
       /\ Forall (fun c => (48 <= c <= 57) \/ (65 <= c <= 90))%N x.
Proof.
  split; [reflexivity|].
  apply (valid_asins_ascii_shape latin1 (lit "b000000001, b000000002")). reflexivity.
Defined.

Example valid_asins_sample :
  valid_asins latin1 (lit "b000000001, b000000002 x1,, b000000001")
  = [asin1; asin2; asin1].
Proof. vm_compute. reflexivity. Qed.

End Identifiers.

(** ** The result table *)

Module Table.
Import Py Web Props PyFacts RecoveryLoop Coordinator Runs Samples.

Local Open Scope nat_scope.

Section Table.
Context (udb : UnicodeDB) (parse_html : str -> Soup).

Abbreviation run := (Web.get_offer_info_scrape_parallel udb parse_html).
Abbreviation scrape_one_asin := (Web.scrape_one_asin udb parse_html).

(** An entry of the mapping was there before, or was filed from one of
    the completed tasks. *)
Lemma collect_lookup completed : forall (results m : gmap str (str * str * str)) asin rec,
  collect completed results = Ok m ->
  m !! asin = Some rec ->
  results !! asin = Some rec
  \/ In (Ok (asin, fst (fst rec), snd (fst rec), snd rec)) completed.
Proof.
  induction completed as [|r rest IH]; intros results m asin rec Hrun Hm.
  - cbn in Hrun. injection Hrun as <-. now left.
  - destruct r as [[[[a v] e] st]|]; [|discriminate Hrun].
    cbn [collect] in Hrun.
    destruct (IH _ _ _ _ Hrun Hm) as [Hin|Hin]; [|right; now right].
    rewrite lookup_insert in Hin. destruct (decide (a = asin)) as [->|Hne].
    + injection Hin as <-. right. now left.
    + now left.
Qed.

(** Every entry is the record that a task submitted for its identifier
    returned. *)
Lemma run_entries asins worlds completed m asin rec :
  run asins worlds completed (Ok m) ->
  m !! asin = Some rec ->
  exists i, asins !! i = Some asin
    /\ fst (scrape_one_asin asin (worlds i))
       = Ok (asin, fst (fst rec), snd (fst rec), snd rec).
Proof.
  intros [Hperm Hm] Hrec. symmetry in Hm.
  destruct (collect_lookup completed ∅ m asin rec Hm Hrec) as [Hin|Hin].
  - rewrite lookup_empty in Hin. discriminate Hin.
  - unfold as_completed in Hperm.
    apply list_elem_of_In in Hin. rewrite Hperm in Hin.
    apply elem_of_lookup_imap_1 in Hin as (i & a & Heq & Hi).
    destruct (scrape_one_asin_returns udb parse_html a (worlds i))
      as (v & e & st & w' & Hrun).
    rewrite Hrun in Heq. cbn [fst] in Heq. injection Heq as -> -> -> ->.
    exists i. split; [exact Hi|]. now rewrite Hrun.
Qed.

(** X15. Every entry of the mapping that the coordinator returns is the
    record returned by one of the tasks submitted for that identifier,
    whatever the order of completion: no record is filed under another
    identifier. *)
Theorem coordinator_entries (asins : list str) (worlds : nat -> World)
    (completed : list (Res Classified)) (results : Res (gmap str (str * str * str))) :
  run asins worlds completed results ->
  exists m, results = Ok m
    /\ forall asin vendido enviado status,
         m !! asin = Some (vendido, enviado, status) ->
         exists i, asins !! i = Some asin
           /\ fst (scrape_one_asin asin (worlds i)) = Ok (asin, vendido, enviado, status).
Proof.
  intros Hrun.
  destruct (coordinator_dom udb parse_html asins worlds completed results Hrun)
    as (m & -> & _).
  exists m. split; [reflexivity|]. intros asin v e st Hm.
  exact (run_entries asins worlds completed m asin (v, e, st) Hrun Hm).
Qed.

(** The row of an identifier of the batch shows a record of one of the
    four kinds. *)
Lemma run_row_shape asins worlds completed m asin :
  run asins worlds completed (Ok m) ->
  In asin asins ->
  exists vendido enviado status,
    m !! asin = Some (vendido, enviado, status)
    /\ record_shape udb (asin, vendido, enviado, status).
Proof.
  intros Hrun Hin.
  destruct (coordinator_dom udb parse_html asins worlds completed _ Hrun)
    as (m' & [= <-] & Hdom).
  assert (Hsome : is_Some (m !! asin)).
  { apply elem_of_dom. rewrite Hdom. apply elem_of_list_to_set.
    now apply list_elem_of_In. }
  destruct Hsome as [[[v e] st] Hm]. exists v, e, st. split; [exact Hm|].
  destruct (run_entries asins worlds completed m asin _ Hrun Hm) as (i & _ & Htask).
  cbn [fst snd] in Htask.
  destruct (scrape_cycles_shape udb parse_html asin (dp_url asin)
              (seq 0 (MAX_BLOCKED_CYCLES + 1)) (worlds i))
    as (rec & w' & Hrec & Hshape & _).
  unfold Web.scrape_one_asin in Htask. cbv zeta in Htask.
  rewrite Hrec in Htask. cbn [fst] in Htask. injection Htask as ->. exact Hshape.
Qed.

Lemma display_row_counted_once m asin vendido enviado status :
  m !! asin = Some (vendido, enviado, status) ->
  record_shape udb (asin, vendido, enviado, status) ->
  counted_once (display_row m asin).
Proof.
  intros Hm Hshape. unfold display_row. rewrite Hm. cbn [default].
  unfold counted_once. cbn [row_status row_vendido].
  destruct Hshape as [(-> & -> & ->)|[(-> & -> & ->)|[(-> & -> & ->)|(_ & _ & _ & ->)]]];
    cbn; auto.
Qed.

Lemma count_rows_cons p r rows :
  count_rows p (r :: rows) = Nat.b2n (p r) + count_rows p rows.
Proof. unfold count_rows. cbn [List.filter]. now destruct (p r). Qed.

Lemma summarize_counted_once rows :
  Forall counted_once rows ->
  lfo_count (summarize rows) + amazonfo_count (summarize rows)
  + reproc_count (summarize rows) + nooffer_count (summarize rows)
  = total (summarize rows)
  /\ nooffer_count (summarize rows)
     = count_rows (fun r => eqb (row_status r) SEM_OFERTA) rows.
Proof.
  unfold summarize. cbn [total lfo_count amazonfo_count reproc_count nooffer_count].
  induction 1 as [|r rows [Hone Hguard] Hrows [IH1 IH2]]; [split; reflexivity|].
  rewrite !count_rows_cons. cbn [length]. split; [lia|].
  rewrite IH2. f_equal. now rewrite Hguard.
Qed.

(** X16. The table of [index] has one row for each validated identifier
    of the input, repeated identifiers included, and each row counts in
    exactly one of the four counts of the summary: the counts of LFO,
    Amazon FO, reprocessing and no-offer rows add up to the total.  The
    test on the seller in the no-offer count excludes no row. *)
Theorem index_counts_partition (asins : list str) (worlds : nat -> World)
    (completed : list (Res Classified)) (results : Res (gmap str (str * str * str))) :
  run asins worlds completed results ->
  exists m, results = Ok m
    /\ let rows := full_results m asins in
       let sm := summarize rows in
       List.map row_asin rows = asins
       /\ total sm = length asins
       /\ lfo_count sm + amazonfo_count sm + reproc_count sm + nooffer_count sm = total sm
       /\ nooffer_count sm = count_rows (fun r => eqb (row_status r) SEM_OFERTA) rows.
Proof.
  intros Hrun.
  destruct (coordinator_dom udb parse_html asins worlds completed results Hrun)
    as (m & -> & _).
  exists m. split; [reflexivity|]. cbv zeta.
  assert (Hrows : Forall counted_once (full_results m asins)).
  { unfold full_results. apply Forall_forall. intros r Hr.
    apply in_map_iff in Hr as (asin & <- & Hin).
    destruct (run_row_shape asins worlds completed m asin Hrun Hin)
      as (v & e & st & Hm & Hshape).
    now apply display_row_counted_once with (vendido := v) (enviado := e) (status := st). }
  destruct (summarize_counted_once _ Hrows) as [Hsum Hguard].
  split; [|split; [|split; [exact Hsum|exact Hguard]]].
  - unfold full_results. rewrite List.map_map.
    rewrite <- (List.map_id asins) at 2. apply List.map_ext. intros asin.
    unfold display_row. now destruct (default _ (m !! asin)) as [[v e] st].
  - unfold summarize, full_results. cbn [total]. apply length_map.
Qed.

(** A reprocessing record is shown with the status [Reprocessar], every
    other record as it is, and an identifier without entry as
    [Sem Oferta]. *)
Lemma display_row_status (m : gmap str (str * str * str)) (asin : str) :
  row_asin (display_row m asin) = asin
  /\ (m !! asin = None ->
      display_row m asin
      = {| row_asin := asin; row_vendido := SEM_OFERTA; row_enviado := SEM_OFERTA;
           row_status := SEM_OFERTA |})
  /\ (forall vendido enviado status,
        m !! asin = Some (vendido, enviado, status) ->
        row_vendido (display_row m asin) = vendido
        /\ row_enviado (display_row m asin) = enviado
        /\ (status = REPROCESSAR -> row_status (display_row m asin) = REPROCESSAR_LABEL)
        /\ (status <> REPROCESSAR -> row_status (display_row m asin) = status)).
Proof.
  unfold display_row. split; [|split].
  - now destruct (default _ (m !! asin)) as [[v e] st].
  - intros ->. reflexivity.
  - intros v e st ->.
    change (default (SEM_OFERTA, SEM_OFERTA, SEM_OFERTA) (Some (v, e, st)))
      with (v, e, st).
    cbv beta iota zeta. cbn [row_vendido row_enviado row_status].
    split; [reflexivity|]. split; [reflexivity|]. split.
    + intros ->. reflexivity.
    + intros Hne. apply eqb_neq in Hne. now rewrite Hne.
Qed.

End Table.

(** Two identifiers on a network that is down: two rows, both for
    reprocessing. *)
Lemma index_counts_down :
  let futures := Web.submit_all latin1 parse_none [asin1; asin2] worlds_down in
  Web.get_offer_info_scrape_parallel latin1 parse_none [asin1; asin2] worlds_down
    futures (collect futures ∅)
  /\ exists m, collect futures ∅ = Ok m
       /\ List.map row_asin (full_results m [asin1; asin2]) = [asin1; asin2]
       /\ total (summarize (full_results m [asin1; asin2])) = 2
       /\ lfo_count (summarize (full_results m [asin1; asin2]))
          + amazonfo_count (summarize (full_results m [asin1; asin2]))
          + reproc_count (summarize (full_results m [asin1; asin2]))
          + nooffer_count (summarize (full_results m [asin1; asin2]))
          = total (summarize (full_results m [asin1; asin2]))
       /\ nooffer_count (summarize (full_results m [asin1; asin2]))
          = count_rows (fun r => eqb (row_status r) SEM_OFERTA)
              (full_results m [asin1; asin2]).
Proof.
  intros futures.
  assert (H : Web.get_offer_info_scrape_parallel latin1 parse_none [asin1; asin2]
                worlds_down futures (collect futures ∅)).
  { split; [unfold as_completed|]; reflexivity. }
  split; [exact H|].
  exact (index_counts_partition latin1 parse_none [asin1; asin2] worlds_down
           futures (collect futures ∅) H).
Defined.

Lemma coordinator_entries_down :
  let futures := Web.submit_all latin1 parse_none [asin1; asin2] worlds_down in
  Web.get_offer_info_scrape_parallel latin1 parse_none [asin1; asin2] worlds_down
    (rev futures) (collect (rev futures) ∅)
  /\ exists m, collect (rev futures) ∅ = Ok m
       /\ forall asin vendido enviado status,
            m !! asin = Some (vendido, enviado, status) ->
            exists i, [asin1; asin2] !! i = Some asin
              /\ fst (Web.scrape_one_asin latin1 parse_none asin (worlds_down i))
                 = Ok (asin, vendido, enviado, status).
Proof.
  intros futures.
  assert (H : Web.get_offer_info_scrape_parallel latin1 parse_none [asin1; asin2]
                worlds_down (rev futures) (collect (rev futures) ∅)).
  { split; [|reflexivity]. unfold as_completed. symmetry. apply Permutation_rev. }
  split; [exact H|].
  exact (coordinator_entries latin1 parse_none [asin1; asin2] worlds_down
           (rev futures) (collect (rev futures) ∅) H).
Defined.

End Table.

(** ** The displayed duration *)

Module Duration.
Import Py Web Props PyFacts.

Local Open Scope nat_scope.

Lemma lit_inj a b : lit a = lit b -> a = b.
Proof.
  unfold lit. intros H.
  rewrite <- (string_of_list_ascii_of_string a), <- (string_of_list_ascii_of_string b).
  f_equal. revert H. generalize (list_ascii_of_string a) (list_ascii_of_string b).
  induction l as [|x l IH]; intros [|y l'] H; try discriminate H; [reflexivity|].
  cbn [List.map] in H. injection H as Hx Hl. f_equal; [|now apply IH].
  rewrite <- (ascii_N_embedding x), <- (ascii_N_embedding y). now rewrite Hx.
Qed.

Lemma to_int_proper z : Z.to_int z <> Decimal.Pos Decimal.Nil
                        /\ Z.to_int z <> Decimal.Neg Decimal.Nil.
Proof.
  pose proof DecimalPos.Unsigned.to_uint_nonnil as H.
  destruct z as [|p|p]; cbn; split; try discriminate; intros [= E]; now apply (H p).
Qed.

(** The decimal text of an integer determines it. *)
Lemma str_of_int_inj a b : str_of_int a = str_of_int b -> a = b.
Proof.
  unfold str_of_int. intros H. apply lit_inj in H.
  apply DecimalZ.to_int_inj.
  destruct (to_int_proper a) as [Ha1 Ha2]. destruct (to_int_proper b) as [Hb1 Hb2].
  pose proof (NilZero.isi _ Ha1 Ha2) as Ea. pose proof (NilZero.isi _ Hb1 Hb2) as Eb.
  rewrite H in Ea. congruence.
Qed.

Lemma uint_chars d : Forall decimal_char (lit (NilEmpty.string_of_uint d)).
Proof.
  induction d; cbn [NilEmpty.string_of_uint]; try constructor; try exact IHd;
    left; cbn; lia.
Qed.

(** It is made of digits and, for a negative number, a minus sign. *)
Lemma str_of_int_chars z : Forall decimal_char (str_of_int z).
Proof.
  assert (H : forall d, Forall decimal_char (lit (NilZero.string_of_uint d))).
  { intros d. destruct d; try apply uint_chars.
    constructor; [left; cbn; lia|constructor]. }
  unfold str_of_int. destruct (Z.to_int z) as [d|d]; cbn [NilZero.string_of_int].
  - apply H.
  - constructor; [now right|apply H].
Qed.

(** A text is cut in one way only at its first character that is not
    of a decimal number. *)
Lemma cut_unique a : forall a' c c' b b',
  Forall decimal_char a -> Forall decimal_char a' ->
  ~ decimal_char c -> ~ decimal_char c' ->
  a ++ c :: b = a' ++ c' :: b' ->
  a = a' /\ c = c' /\ b = b'.
Proof.
  induction a as [|x a IH]; intros [|y a'] c c' b b' Ha Ha' Hc Hc' H; cbn [app] in H.
  - injection H as -> ->. auto.
  - injection H as -> _. inversion Ha'; subst. contradiction.
  - injection H as -> _. inversion Ha; subst. contradiction.
  - injection H as -> H. inversion Ha; inversion Ha'; subst.
    destruct (IH a' c c' b b') as (-> & -> & ->); auto.
Qed.

(** X17. [format_tempo_leitura] shows different rounded numbers of
    seconds as different texts: the text tells the duration. *)
Theorem format_tempo_leitura_injective (s1 s2 : Z) :
  format_tempo_leitura (Some s1) = format_tempo_leitura (Some s2) -> s1 = s2.
Proof.
  assert (Hs : ~ decimal_char 115%N) by (intros [H|H]; [lia|discriminate H]).
  assert (Hm : ~ decimal_char 109%N) by (intros [H|H]; [lia|discriminate H]).
  unfold format_tempo_leitura. cbv zeta.
  change (lit "seg") with (115%N :: lit "eg").
  change (lit "min ") with (109%N :: lit "in ").
  destruct (s1 <? 60)%Z eqn:E1; destruct (s2 <? 60)%Z eqn:E2; intros H.
  - apply cut_unique in H as (H & _); auto using str_of_int_chars.
    now apply str_of_int_inj.
  - apply cut_unique in H as (_ & H & _); auto using str_of_int_chars.
    discriminate H.
  - apply cut_unique in H as (_ & H & _); auto using str_of_int_chars.
    discriminate H.
  - cbn [app] in H.
    apply cut_unique in H as (Hmin & _ & H); auto using str_of_int_chars.
    apply app_inv_head in H.
    apply cut_unique in H as (Hsec & _); auto using str_of_int_chars.
    apply str_of_int_inj in Hmin. apply str_of_int_inj in Hsec.
    rewrite (Z.div_mod s1 60), (Z.div_mod s2 60) by lia. now rewrite Hmin, Hsec.
Qed.

(** X18. From sixty seconds on the text shows minutes, at least one, and
    fewer than sixty seconds, which together make up the duration; below
    sixty seconds, negative numbers included, it shows the seconds
    alone. *)
Theorem format_tempo_leitura_minutes (s : Z) :
  ((60 <= s)%Z ->
     exists m r, format_tempo_leitura (Some s)
                 = str_of_int m ++ lit "min " ++ str_of_int r ++ lit "seg"
       /\ (1 <= m)%Z /\ (0 <= r < 60)%Z /\ (s = 60 * m + r)%Z)
  /\ ((s < 60)%Z -> format_tempo_leitura (Some s) = str_of_int s ++ lit "seg").
Proof.
  unfold format_tempo_leitura. cbv zeta. split; intros H.
  - apply Z.ltb_ge in H as E. rewrite E. apply Z.ltb_ge in E.
    exists (s / 60)%Z, (s mod 60)%Z. split; [reflexivity|].
    pose proof (Z.div_mod s 60 ltac:(lia)).
    pose proof (Z.mod_pos_bound s 60 ltac:(lia)).
    assert (1 <= s / 60)%Z by (apply Z.div_le_lower_bound; lia).
    lia.
  - apply Z.ltb_lt in H. now rewrite H.
Qed.

Lemma format_tempo_leitura_injective_75 :
  format_tempo_leitura (Some 75%Z) = format_tempo_leitura (Some 75%Z) /\ 75%Z = 75%Z.
Proof.
  split; [reflexivity|].
  apply (format_tempo_leitura_injective 75 75). reflexivity.
Defined.

Example format_tempo_leitura_samples :
  format_tempo_leitura (Some 75%Z) = lit "1min 15seg"
  /\ format_tempo_leitura (Some 59%Z) = lit "59seg"
  /\ format_tempo_leitura (Some 3600%Z) = lit "60min 0seg"
  /\ format_tempo_leitura None = lit "0seg".
Proof. repeat split. Qed.

End Duration.
